(* ===== verification/_CoqProject ===== *)
-Q . S2P
Prelude.v
Runtime.v
Model.v
Reducer.v
Handlers.v
State.v
Invariant.v
Click.v
App.v
Heap.v
Immer.v
Render.v
Turn.v
