(* ===== verification/Prelude.v ===== *)
(** * A verification development of bowling-time ([src/src/App.tsx])

    ** The program

    bowling-time is a single React component, [App] in [src/src/App.tsx].
    Its state is one [Game] object (players, a stale copy of the current
    player, a shared frame cursor, a winner string) held by
    [useImmerReducer(gameReducer, gameInitialState)].  Two parts interact:

    - the reducer [gameReducer] (lines 79-208), a switch over eleven action
      types that mutates an immer draft of the state;
    - the event handlers of [App] (lines 213-322): [handleAddPlayer] and
      [handleRoll], which read the state rendered last ([game]), draw a
      random pin count with [roll], and dispatch one or two actions.
      [handleRoll] relies on the helpers [getMinOfRange],
      [calculateWinner], [getPreviousStrikes] and [getPreviousSpares].

    The JSX table (lines 324-355) only displays the state.

    ** How the development models it

    - [Prelude] (this file): the JavaScript outcome of running code
      ([outcome]: a value, a thrown [TypeError], or [Undef] when a JS
      [undefined], [null] or [NaN] would flow into a place the model types as
      a number or an object), its monad instance (stdpp's [≫=] and
      [x ← m; k]), JavaScript array indexing by a number ([js_get], [js_at],
      [js_set], written [l .!! i]), the hint database [js] and the tactics
      shared by the other files.
    - [Runtime]: React's [useReducer] dispatch queue as a typeclass
      interface [Reducer S A] (the contract between the handlers and the
      reducer), the fold [dispatch_all] that applies the queued actions in
      order, and [handle], an event handler run against the rendered
      snapshot, and the forward simulation [dispatch_all_sim] that lifts a
      relation between two reducers over a dispatch queue.  The value
      model of [Reducer] treats the state as a plain value.
    - [Model]: the interfaces [Frame], [Player], [Game], [GameActionType],
      [GameAction] and the initial states (lines 6-77) as records, an
      inductive type and constants.
    - [Reducer]: [gameReducer], one definition per case of the switch
      (lines 79-208), with the [Reducer] instance, the draft update
      [update_frame] that every frame-writing case goes through, and the
      theorems on the [addToStrike] case.
    - [Handlers]: [getMinOfRange], [calculateWinner], [roll] (Math.random
      as a rational draw [r] with [0 <= r < 1]), [getPreviousStrikes],
      [getPreviousSpares], [handleAddPlayer] and [handleRoll] (lines
      213-322), each handler returning the list of actions it dispatches,
      and the theorems on the pin draw.
    - [State]: the state invariant [wf] and the lemmas that read it.
    - [Invariant]: how each reducer case changes a well-formed state when
      it is dispatched by [handleRoll] (Sections [WriteFrame], [RollStep],
      [TurnStep]), each as one lemma giving the new state.
    - [Click]: one click on Roll and one on Add player as composed lemmas
      ([roll_click], [add_click]): the handler and its dispatches succeed,
      keep [wf], and change exactly what the two actions change.
    - [App]: the application as a transition system over [Game]: the two
      buttons of the JSX (lines 327-329) as events [ClickAddPlayer] and
      [ClickRoll r], [app_step] (one handler run through [handle]), [run]
      over a list of events, the inductive [reachable] set of states from
      [gameInitialState]; then the theorems on reachable states in the
      Modules [Safety], [Liveness], [Scoring], [Bonus] and [Typing].
    - [Render]: the JSX that [App] returns (lines 324-355) as a pure
      function [render] from the state to a tree of elements and text
      nodes, and what the table displays ([displayed]).
    - [Turn]: the turn a state is at ([turn_of]: player and frame) and the
      frame [handleRoll] reads ([current_frame]), the order the code
      implements ([code_next], [turn_after]) and the spec's round robin
      ([spec_next]).
    - [Heap]: the JavaScript objects themselves, as an object store: frame
      objects and player objects at locations ([gmap N]), a player's
      [frames] a list of references, [players] and [currentPlayer] of the
      root references too.  [heapInitial] has the single frame object of
      [Array(10).fill({ ...frameInitialState })] (line 27) that every new
      player's ten slots refer to ([framesInitialLocs]).  A write to
      [currentFrame] goes through an immer draft ([himmer_update_frame]:
      copy the frame, the player and the arrays on the path, never change
      an existing object); [read_game] reads the objects as a [Game].
    - [Immer]: every case of [gameReducer] on the object store
      ([heapReducer], the [Reducer] instance [heap_reducer]) and the clicks
      on it ([heap_step], [heap_run]).

    ** What the theorems show

    - [App.Safety]: every reachable state is well formed ([reachable_wf],
      by rule induction on [reachable]): players are numbered 1..n, every
      player has ten frames, every frame has [rollNumber] 1 or 2 and its
      [strike]/[spare] flags unset, the frame cursor stays in 1..10,
      [score] stays 0 and [winner] stays [""].  With at least one player no
      click on Roll throws; pressing Roll before adding a player throws a
      [TypeError]; frame 10 is never bowled, so no winner is ever set; with
      two players or more the last player is never the current one;
      players can be added at any time.
    - [App.Liveness]: a one-player game reaches frame 10 after at most 18
      clicks on Roll, whatever [Math.random] returns (the measure
      [rolls_left] decreases at each roll); with two players or more no
      sequence of rolls moves the frame cursor or touches the last
      player's frames.
    - [App.Scoring] and [Handlers]: the pin draw [roll] stays in its range
      and hits every value of it; the second ball is drawn from
      [10 - total .. 10]; an open frame counts its first ball twice and can
      record more than ten pins; a strike and a spare are written into the
      next frame.
    - [App.Bonus] and [Reducer]: the bonus actions [addToStrike] and
      [addToSpare] are never dispatched; the [addToStrike] case would
      credit the player after the current one, and throw for the last
      player; in a one-player game [currentPlayer], which
      [getPreviousStrikes] and [getPreviousSpares] read, stays the copy
      [newPlayer 1] whatever is bowled (an invariant by rule induction).

    - [App.Typing]: the dispatched actions satisfy the non-null assertions
      of the reducer cases they reach ([action_typed]).
    - [Handlers]: [calculateWinner] equals a reference definition, the
      last player with a positive score.
    - [Render]: the table of a reachable state has one labelled row of ten
      cells per player and a header exactly when there is a player, and it
      determines the numbers of the state; every one-player game whose
      draws are all below 1/11 (no pin) shows zeros after 18 balls, as the
      spec expects, and every one whose draws are all at least 10/11 (ten
      pins) ends after ten balls with totals 0, 10, ..., 10.  These two
      are proved for all such draws: the click depends on [Math.random]
      only through [roll] at the lower bound [draw_min], so a run is
      decided by the pins drawn ([run_rolls_congr]).
    - [Turn]: every click on Roll moves the turn to exactly [turn_after]
      (the same turn after a first ball, [code_next] after a second ball,
      no move from frame 10 on), so [code_next] is the code's order; after
      a second ball the turn is the spec's round-robin successor exactly
      for one player or a player other than the last but one.
    - [Immer]: the value model is exact: running the clicks on the objects
      as immer does reads, after any sequence of clicks, as the state of
      [run], with the same errors ([heap_runs_refine], a simulation proved
      case by case through [dispatch_all_sim]).  The sharing of the frame
      object of [framesInitialState] and of the [currentPlayer] reference
      is therefore harmless under immer's copy-on-write.

    Most of these are divergences from the spec (listed as findings of the
    manifest): the program does not compute bowling scores.

    ** Bounds and choices

    JavaScript numbers are modelled as [Z]: every number of the program is
    a small integer, so IEEE doubles represent them exactly.  [Math.random]
    is modelled by a rational [r] with [0 <= r < 1]; [Math.ceil] and
    [Math.floor] of the integer bounds passed to [roll] are the identity.
    No definition needs fuel: [run] recurses on the list of events, and the
    termination of a one-player game is a theorem about [run] on any list
    of at least 18 rolls, with the bound 18 = 9 frames of 2 balls (frame 10
    is never bowled).

    ** Not modelled

    [console.log] (no effect on the state; the early returns that call it
    are modelled as returning the state unchanged), the DOM that React
    builds from the rendered tree, and React's development-mode double
    invocation of reducers (the entry file that would enable [StrictMode]
    is not part of [src/]; under immer the reducer does not change its
    input, so a second call gives the same state).  Of immer, only what
    the reducer relies on is modelled: structural sharing and copy on the
    first write of each object on the path; its proxies, auto-freezing and
    patches are not. *)

From Stdlib Require Import ZArith Lia.
From stdpp Require Import base list.

(** ** Outcomes of JavaScript code *)

(** Running a piece of the program gives a value, throws a [TypeError]
    (a property read or written on [undefined]), or reaches a JS value the
    model does not represent ([Undef]). *)
Inductive outcome (A : Type) : Type :=
| Ok (a : A)
| TypeError
| Undef.
Arguments Ok {A} a.
Arguments TypeError {A}.
Arguments Undef {A}.

#[export] Instance outcome_ret : MRet outcome := λ A a, Ok a.
#[export] Instance outcome_bind : MBind outcome := λ A B f m,
  match m with
  | Ok a => f a
  | TypeError => TypeError
  | Undef => Undef
  end.

(** A value read where JS then touches one of its properties: [undefined]
    throws. *)
Definition deref {A} (o : option A) : outcome A :=
  match o with Some a => Ok a | None => TypeError end.

(** A value read and then stored: [undefined] leaves the model. *)
Definition stored {A} (o : option A) : outcome A :=
  match o with Some a => Ok a | None => Undef end.

(** ** JavaScript arrays indexed by numbers *)

(** [l[i]]: negative or too large indices give [undefined]. *)
Definition js_get {A} (l : list A) (i : Z) : option A :=
  if (i <? 0)%Z then None else l !! Z.to_nat i.

Declare Scope js_scope.
Delimit Scope js_scope with js.
Notation "l .!! i" := (js_get l i) (at level 20) : js_scope.
Open Scope js_scope.

(** [l[i]] followed by a property access. *)
Definition js_at {A} (l : list A) (i : Z) : outcome A := deref (l .!! i).

(** [l[i] = x] at an index the program has just read successfully. *)
Definition js_set {A} (l : list A) (i : Z) (x : A) : list A :=
  <[Z.to_nat i := x]> l.

(** ** Generic lemmas *)

Create HintDb js discriminated.
Create Rewrite HintDb js_rw.

Section Outcome.
Context {A B : Type}.

Lemma bind_Ok (a : A) (f : A → outcome B) : (Ok a ≫= f) = f a.
Proof. reflexivity. Qed.

Lemma bind_eq_Ok (m : outcome A) (f : A → outcome B) b :
  (m ≫= f) = Ok b ↔ ∃ a, m = Ok a ∧ f a = Ok b.
Proof.
  destruct m; simpl; split; intros H; try discriminate;
    try (destruct H as (? & H & _); discriminate); eauto.
  destruct H as (? & [= ->] & H); exact H.
Qed.

Lemma bind_TypeError (f : A → outcome B) : (TypeError ≫= f) = TypeError.
Proof. reflexivity. Qed.

Lemma deref_Some (a : A) : deref (Some a) = Ok a.
Proof. reflexivity. Qed.
End Outcome.

Section JsArray.
Context {A : Type}.
Implicit Types (l : list A) (i j : Z) (x : A).

Lemma js_get_Some_range l i x :
  l .!! i = Some x → (0 ≤ i ∧ i < Z.of_nat (length l))%Z.
Proof.
  unfold js_get. destruct (Z.ltb_spec i 0); [discriminate|].
  intros Hl%lookup_lt_Some. lia.
Qed.

Lemma js_get_lookup l i :
  (0 ≤ i)%Z → l .!! i = l !! Z.to_nat i.
Proof. unfold js_get. destruct (Z.ltb_spec i 0); [lia | done]. Qed.

Lemma js_get_in_range l i :
  (0 ≤ i < Z.of_nat (length l))%Z → is_Some (l .!! i).
Proof.
  intros H. rewrite js_get_lookup by lia. apply lookup_lt_is_Some_2. lia.
Qed.

Lemma js_get_neg l i : (i < 0)%Z → l .!! i = None.
Proof. unfold js_get. destruct (Z.ltb_spec i 0); [done | lia]. Qed.

Lemma js_get_ge l i : (Z.of_nat (length l) ≤ i)%Z → l .!! i = None.
Proof.
  intros H. rewrite js_get_lookup by lia. apply lookup_ge_None_2. lia.
Qed.

Lemma js_get_nil i : ([] : list A) .!! i = None.
Proof. unfold js_get. by destruct (i <? 0)%Z. Qed.

Lemma length_js_set l i x : length (js_set l i x) = length l.
Proof. apply length_insert. Qed.

Lemma js_get_set_eq l i x :
  (0 ≤ i < Z.of_nat (length l))%Z → (js_set l i x) .!! i = Some x.
Proof.
  intros H. rewrite js_get_lookup by lia. apply list_lookup_insert_eq. lia.
Qed.

Lemma js_get_set_ne l i j x :
  i ≠ j → (0 ≤ i)%Z → (js_set l i x) .!! j = l .!! j.
Proof.
  intros Hne Hi. unfold js_get, js_set.
  destruct (Z.ltb_spec j 0); [done|].
  apply list_lookup_insert_ne. lia.
Qed.

Lemma js_set_Forall (P : A → Prop) l i x :
  Forall P l → P x → Forall P (js_set l i x).
Proof. intros Hl Hx. by apply Forall_insert. Qed.

Lemma js_get_Forall (P : A → Prop) l i x :
  Forall P l → l .!! i = Some x → P x.
Proof.
  unfold js_get. destruct (i <? 0)%Z; [discriminate|].
  intros Hl Hx. eapply Forall_lookup_1; eauto.
Qed.
(** Arrays related element-wise are indexed alike. *)
Lemma js_get_Forall2 {B} (P : A → B → Prop) l k i :
  Forall2 P l k →
  match l .!! i, k .!! i with
  | Some x, Some y => P x y
  | None, None => True
  | _, _ => False
  end.
Proof.
  unfold js_get. intros Hlk. destruct (i <? 0)%Z; [done|].
  pose proof (proj1 (Forall2_lookup P l k) Hlk (Z.to_nat i)) as Hi.
  by inversion Hi.
Qed.

Lemma js_set_Forall2 {B} (P : A → B → Prop) l k i x y :
  Forall2 P l k → P x y → Forall2 P (js_set l i x) (js_set k i y).
Proof. intros. by apply Forall2_insert. Qed.
End JsArray.

#[export] Hint Rewrite @bind_Ok @bind_TypeError @deref_Some @length_js_set : js_rw.
#[export] Hint Resolve js_set_Forall : js.

(** Unfold the monadic plumbing of a hypothesis [m ≫= f = Ok b]. *)
Ltac inv_bind H :=
  let a := fresh "a" in
  let Ha := fresh "Ha" in
  apply bind_eq_Ok in H; destruct H as (a & Ha & H).

(** Case analysis on the boolean tests of the code, keeping the equations. *)
Ltac case_if :=
  match goal with
  | |- context [if ?b then _ else _] => destruct b eqn:?
  end.
