(* ===== verification/Runtime.v ===== *)
(** React's [useReducer] as the program uses it ([useImmerReducer] at
    [src/src/App.tsx:211]).

    The reducer is the interface between the event handlers and the state:
    a [Reducer S A] instance gives, for a state and a dispatched action, the
    outcome of the reducer call.  A handler reads the snapshot rendered last
    and queues actions with [gameDispatch]; React applies the queue in order
    on the next render ([dispatch_all]); a reducer that throws aborts the
    render, so the first non-[Ok] outcome is final.  The lemmas of this file
    are proved against the interface only. *)

From stdpp Require Import base list.
From S2P Require Import Prelude.

Class Reducer (S A : Type) := reduce : S → A → outcome S.

Section Dispatch.
Context {S A : Type} `{!Reducer S A}.

(** Processing the update queue of one render. *)
Fixpoint dispatch_all (s : S) (acts : list A) : outcome S :=
  match acts with
  | [] => Ok s
  | a :: rest => s' ← reduce s a; dispatch_all s' rest
  end.

(** One event: the handler reads the snapshot [s] and returns the actions
    it dispatched, or throws before dispatching. *)
Definition handle (h : S → outcome (list A)) (s : S) : outcome S :=
  acts ← h s; dispatch_all s acts.

Lemma dispatch_all_app s acts1 acts2 :
  dispatch_all s (acts1 ++ acts2) = (s' ← dispatch_all s acts1; dispatch_all s' acts2).
Proof.
  revert s. induction acts1 as [|a acts1 IH]; intros s; simpl; [done|].
  destruct (reduce s a); simpl; auto.
Qed.

Lemma dispatch_all_cons s a acts :
  dispatch_all s (a :: acts) = (s' ← reduce s a; dispatch_all s' acts).
Proof. reflexivity. Qed.

(** A state property that every dispatched action keeps is kept by the
    whole queue. *)
Lemma dispatch_all_preserves (P : S → Prop) (Q : A → Prop) s acts s' :
  (∀ s a s', P s → Q a → reduce s a = Ok s' → P s') →
  P s → Forall Q acts → dispatch_all s acts = Ok s' → P s'.
Proof.
  intros Hstep Hs Hacts. revert s Hs.
  induction Hacts as [|a acts Ha Hacts IH]; intros s Hs Hrun; simpl in Hrun.
  - by injection Hrun as <-.
  - inv_bind Hrun. eauto.
Qed.

(** A handler that dispatches nothing leaves the state as it is. *)
Lemma handle_nil (h : S → outcome (list A)) s :
  h s = Ok [] → handle h s = Ok s.
Proof. intros H. unfold handle. by rewrite H. Qed.
End Dispatch.

#[export] Hint Rewrite @dispatch_all_cons : js_rw.

(** ** Two implementations of the same reducer interface *)

(** Outcomes related by [R] on their values: both succeed with related
    states, or both fail the same way. *)
Definition out_rel {T S} (R : T → S → Prop) (o : outcome T) (o' : outcome S) : Prop :=
  match o, o' with
  | Ok t, Ok s => R t s
  | TypeError, TypeError | Undef, Undef => True
  | _, _ => False
  end.
Arguments out_rel : simpl never.

Lemma out_rel_bind {T S T' S' : Type} (R : T → S → Prop) (R' : T' → S' → Prop)
    (o : outcome T) (o' : outcome S) (f : T → outcome T') (f' : S → outcome S') :
  out_rel R o o' → (∀ t s, R t s → out_rel R' (f t) (f' s)) → out_rel R' (o ≫= f) (o' ≫= f').
Proof. unfold out_rel at 1. destruct o, o'; simpl; try done. intros H Hf. by apply Hf. Qed.

(** A forward simulation between two reducers, step by step, is one
    between their dispatch queues. *)
Section Simulation.
Context {T S A : Type} `{!Reducer T A} `{!Reducer S A} (R : T → S → Prop).
Hypothesis Hsim : ∀ t s a, R t s → out_rel R (reduce t a) (reduce s a).

Lemma dispatch_all_sim t s acts :
  R t s → out_rel R (dispatch_all t acts) (dispatch_all s acts).
Proof.
  revert t s. induction acts as [|a acts IH]; intros t s HR; simpl; [exact HR|].
  apply (out_rel_bind R R); [by apply Hsim | exact IH].
Qed.
End Simulation.
