(* ===== verification/Model.v ===== *)
(** The data of [src/src/App.tsx] (lines 6-77): the interfaces [Frame],
    [Player], [Game] and [GameAction], the action tags [GameActionType], and
    the initial states.

    A JS [number] is a [Z].  [Player.playerNumber : number | null] is an
    [option Z] whose [None] is [null]; the optional fields of [GameAction]
    are [option Z] whose [None] is [undefined].  The record updates the
    reducer performs on its draft are the setters [set_*] below. *)

From Stdlib Require Import ZArith.
From stdpp Require Import base list strings.
From S2P Require Import Prelude.

Open Scope Z_scope.

(** ** Frames (lines 7-27) *)

Record Frame := mkFrame {
  rollNumber : Z;
  total : Z;
  firstRoll : Z;
  secondRoll : Z;
  currentPinsDown : Z;
  strike : bool;
  spare : bool
}.

Definition frameInitialState : Frame := {|
  rollNumber := 1;
  total := 0;
  firstRoll := 0;
  secondRoll := 0;
  currentPinsDown := 0;
  strike := false;
  spare := false
|}.

(** [Array(10).fill({ ...frameInitialState })]: ten references to one
    object.  Immer never mutates it in place (a write through the draft
    copies the frame at that index only), so ten equal values model it. *)
Definition framesInitialState : list Frame := replicate 10 frameInitialState.

Definition set_rollNumber (v : Z) (f : Frame) : Frame :=
  mkFrame v f.(total) f.(firstRoll) f.(secondRoll) f.(currentPinsDown) f.(strike) f.(spare).
Definition set_total (v : Z) (f : Frame) : Frame :=
  mkFrame f.(rollNumber) v f.(firstRoll) f.(secondRoll) f.(currentPinsDown) f.(strike) f.(spare).
Definition set_firstRoll (v : Z) (f : Frame) : Frame :=
  mkFrame f.(rollNumber) f.(total) v f.(secondRoll) f.(currentPinsDown) f.(strike) f.(spare).
Definition set_secondRoll (v : Z) (f : Frame) : Frame :=
  mkFrame f.(rollNumber) f.(total) f.(firstRoll) v f.(currentPinsDown) f.(strike) f.(spare).

(** ** Players (lines 29-39) *)

Record Player := mkPlayer {
  playerNumber : option Z;
  score : Z;
  frames : list Frame
}.

Definition playerInitialState : Player := {|
  playerNumber := None;
  score := 0;
  frames := framesInitialState
|}.

(** [{ ...playerInitialState, playerNumber: n }] *)
Definition newPlayer (n : Z) : Player :=
  mkPlayer (Some n) playerInitialState.(score) playerInitialState.(frames).

Definition set_frames (fs : list Frame) (p : Player) : Player :=
  mkPlayer p.(playerNumber) p.(score) fs.

(** ** The game (lines 41-57) *)

Record Game := mkGame {
  players : list Player;
  currentPlayer : Player;
  currentFrameNumber : Z;
  winner : string
}.

Definition gameInitialState : Game := {|
  players := [];
  currentPlayer := {| playerNumber := None; score := 0; frames := [] |};
  winner := "";
  currentFrameNumber := 1
|}.

Definition set_players (ps : list Player) (g : Game) : Game :=
  mkGame ps g.(currentPlayer) g.(currentFrameNumber) g.(winner).
Definition set_currentPlayer (p : Player) (g : Game) : Game :=
  mkGame g.(players) p g.(currentFrameNumber) g.(winner).
Definition set_currentFrameNumber (n : Z) (g : Game) : Game :=
  mkGame g.(players) g.(currentPlayer) n g.(winner).
Definition set_winner (w : string) (g : Game) : Game :=
  mkGame g.(players) g.(currentPlayer) g.(currentFrameNumber) w.

(** ** Actions (lines 59-77) *)

Inductive GameActionType :=
| addPlayer
| recordStrike
| recordSpare
| addToScore
| callWinner
| nextFrame
| nextPlayer
| nextRoll
| addFirstPlayer
| addToStrike
| addToSpare.

#[export] Instance GameActionType_eq_dec : EqDecision GameActionType.
Proof. solve_decision. Defined.

Module Action.
Record GameAction := mkAction {
  type : GameActionType;
  pinsDown : option Z;
  playerNumber : option Z;
  spareIndex : option Z;
  strikeIndex : option Z
}.

(** [{ type }] with every optional field left [undefined]. *)
Definition act (t : GameActionType) : GameAction := mkAction t None None None None.
End Action.
Export Action (GameAction, mkAction, act).

#[export] Instance Frame_eq_dec : EqDecision Frame.
Proof. solve_decision. Defined.
#[export] Instance Player_eq_dec : EqDecision Player.
Proof. solve_decision. Defined.
#[export] Instance Game_eq_dec : EqDecision Game.
Proof. solve_decision. Defined.
#[export] Instance GameAction_eq_dec : EqDecision GameAction.
Proof. solve_decision. Defined.

(** ** Projections of the setters *)

Lemma set_frames_playerNumber fs p : (set_frames fs p).(playerNumber) = p.(playerNumber).
Proof. reflexivity. Qed.
Lemma set_frames_score fs p : (set_frames fs p).(score) = p.(score).
Proof. reflexivity. Qed.

#[export] Hint Rewrite set_frames_playerNumber set_frames_score : js_rw.
