(* ===== verification/Reducer.v ===== *)
(** [gameReducer] ([src/src/App.tsx:79-208]): one definition per case of
    the switch, each the translation of the statements of that case on the
    immer draft, and the [Reducer] instance that plugs it into [Runtime].

    Reading a property of [undefined] throws ([TypeError]); a JS value
    outside the model reaching a stored field gives [Undef]; the early
    [return console.log(...)] of a case returns [undefined], which immer
    reads as "keep the draft", here unchanged. *)

From Stdlib Require Import ZArith Lia.
From stdpp Require Import base list strings pretty.
From S2P Require Import Prelude Runtime Model.

Open Scope Z_scope.

(** [!action.playerNumber] is true for [undefined] and for [0]. *)
Definition truthy (o : option Z) : option Z :=
  match o with
  | Some n => if n =? 0 then None else Some n
  | None => None
  end.

(** [`${n}`] for a [number | undefined]. *)
Definition template (o : option Z) : string :=
  match o with
  | Some n => pretty n
  | None => "undefined"
  end.

(** [let currentFrame = state.players[pi].frames[fi]; ...mutate currentFrame]:
    [f] is the mutation, run on the frame read through the draft. *)
Definition update_frame (state : Game) (pi fi : Z) (f : Frame → outcome Frame)
    : outcome Game :=
  p ← js_at state.(players) pi;
  fr ← js_at p.(frames) fi;
  fr' ← f fr;
  Ok (set_players (js_set state.(players) pi (set_frames (js_set p.(frames) fi fr') p)) state).

(** ** The mutations of [currentFrame] in the cases of the switch *)

(** [currentFrame.firstRoll = 10; .total = 10; .rollNumber = 2] (lines 96-98) *)
Definition recordStrike_frame (cf : Frame) : outcome Frame :=
  Ok (set_rollNumber 2 (set_total 10 (set_firstRoll 10 cf))).

(** [currentFrame.total = 10; .rollNumber = 2] (lines 111-112) *)
Definition recordSpare_frame (cf : Frame) : outcome Frame :=
  Ok (set_rollNumber 2 (set_total 10 cf)).

(** The mutations of case "addToScore" (lines 125-131). *)
Definition addToScore_frame (action : GameAction) (cf : Frame) : outcome Frame :=
  if cf.(rollNumber) =? 1 then
    p ← stored action.(Action.pinsDown);
    Ok (set_total p (set_firstRoll p cf))
  else if cf.(rollNumber) =? 2 then
    p ← stored action.(Action.pinsDown);
    Ok (set_total (cf.(firstRoll) + p) (set_secondRoll (cf.(firstRoll) + p) cf))
  else Ok cf.

(** [currentFrame.total = previousFrameTotal + firstRoll + secondRoll]
    (lines 149-150) *)
Definition nextFrame_frame (prev : Z) (cf : Frame) : outcome Frame :=
  Ok (set_total (prev + cf.(firstRoll) + cf.(secondRoll)) cf).

(** [currentFrame.rollNumber++] (line 172) *)
Definition nextRoll_frame (cf : Frame) : outcome Frame :=
  Ok (set_rollNumber (cf.(rollNumber) + 1) cf).

(** The mutations of case "addToStrike" (lines 192-196). *)
Definition addToStrike_frame (action : GameAction) (cf : Frame) : outcome Frame :=
  p ← stored action.(Action.pinsDown);
  let cf := set_total (cf.(total) + p) cf in
  if cf.(rollNumber) =? 1 then Ok (set_firstRoll p cf)
  else if cf.(rollNumber) =? 2 then Ok (set_secondRoll p cf)
  else Ok cf.

(** [state.players.push({ ...playerInitialState, playerNumber: length + 1 })] *)
Definition push_player (state : Game) : list Player :=
  state.(players) ++ [newPlayer (Z.of_nat (length state.(players)) + 1)].

(** case "addPlayer" (lines 81-88) *)
Definition reduce_addPlayer (state : Game) : outcome Game :=
  Ok (set_players (push_player state) state).

(** case "recordStrike" (lines 89-100): the frame written is
    [frames[currentFrameNumber]], not [frames[currentFrameNumber - 1]]. *)
Definition reduce_recordStrike (state : Game) (action : GameAction) : outcome Game :=
  match action.(Action.playerNumber) with
  | None => TypeError
  | Some n =>
      update_frame state (n - 1) state.(currentFrameNumber) recordStrike_frame
  end.

(** case "recordSpare" (lines 101-114) *)
Definition reduce_recordSpare (state : Game) (action : GameAction) : outcome Game :=
  match truthy action.(Action.playerNumber) with
  | None => Ok state
  | Some n =>
      update_frame state (n - 1) state.(currentFrameNumber) recordSpare_frame
  end.

(** case "addToScore" (lines 115-133) *)
Definition reduce_addToScore (state : Game) (action : GameAction) : outcome Game :=
  match truthy action.(Action.playerNumber) with
  | None => Ok state
  | Some n =>
      update_frame state (n - 1) (state.(currentFrameNumber) - 1) (addToScore_frame action)
  end.

(** case "callWinner" (lines 134-138) *)
Definition reduce_callWinner (state : Game) (action : GameAction) : outcome Game :=
  Ok (set_winner ("Player " ++ template action.(Action.playerNumber))%string state).

(** [previousFrameTotal] of case "nextFrame" (lines 143-147). *)
Definition previousFrameTotal (currentPlayer : Player) (cfn : Z) : outcome Z :=
  if 2 <=? cfn then
    fr ← js_at currentPlayer.(frames) (cfn - 2);
    Ok fr.(total)
  else Ok 0.

(** case "nextFrame" (lines 139-154) *)
Definition reduce_nextFrame (state : Game) (action : GameAction) : outcome Game :=
  match action.(Action.playerNumber) with
  | None => TypeError
  | Some n =>
      cp ← js_at state.(players) (n - 1);
      prev ← previousFrameTotal cp state.(currentFrameNumber);
      g ← update_frame state (n - 1) (state.(currentFrameNumber) - 1) (nextFrame_frame prev);
      Ok (set_currentFrameNumber (state.(currentFrameNumber) + 1) g)
  end.

(** case "nextPlayer" (lines 155-165): [players[action.playerNumber++]]
    reads index [playerNumber] (post-increment). *)
Definition reduce_nextPlayer (state : Game) (action : GameAction) : outcome Game :=
  match truthy action.(Action.playerNumber) with
  | None => Ok state
  | Some n =>
      let isLastInLine := n =? Z.of_nat (length state.(players)) - 1 in
      p ← stored (state.(players) .!! (if isLastInLine then 0 else n));
      Ok (set_currentPlayer p state)
  end.

(** case "nextRoll" (lines 166-174) *)
Definition reduce_nextRoll (state : Game) (action : GameAction) : outcome Game :=
  match action.(Action.playerNumber) with
  | None => TypeError
  | Some n =>
      update_frame state (n - 1) (state.(currentFrameNumber) - 1) nextRoll_frame
  end.

(** case "addFirstPlayer" (lines 175-185) *)
Definition reduce_addFirstPlayer (state : Game) : outcome Game :=
  let ps := push_player state in
  p ← stored (ps .!! 0);
  Ok (set_currentPlayer p (set_players ps state)).

(** case "addToStrike" (lines 186-198): the player index is
    [currentPlayer.playerNumber] without [- 1]; [players[null]] reads the
    property "null", which is [undefined]. *)
Definition reduce_addToStrike (state : Game) (action : GameAction) : outcome Game :=
  match state.(currentPlayer).(playerNumber), action.(Action.strikeIndex) with
  | Some k, Some si =>
      update_frame state k si (addToStrike_frame action)
  | _, _ => TypeError
  end.

(** The switch.  No case matches "addToSpare": the second
    [case "addToStrike"] (lines 199-206), meant for spares, is shadowed by
    the first and never runs, so "addToSpare" leaves the state unchanged. *)
Definition gameReducer (state : Game) (action : GameAction) : outcome Game :=
  match action.(Action.type) with
  | addPlayer => reduce_addPlayer state
  | recordStrike => reduce_recordStrike state action
  | recordSpare => reduce_recordSpare state action
  | addToScore => reduce_addToScore state action
  | callWinner => reduce_callWinner state action
  | nextFrame => reduce_nextFrame state action
  | nextPlayer => reduce_nextPlayer state action
  | nextRoll => reduce_nextRoll state action
  | addFirstPlayer => reduce_addFirstPlayer state
  | addToStrike => reduce_addToStrike state action
  | addToSpare => Ok state
  end.

#[export] Instance game_reducer : Reducer Game GameAction := gameReducer.

(** ** Lemmas on the draft update *)

Section UpdateFrame.
Implicit Types (state g : Game) (pi fi : Z) (f : Frame → outcome Frame).

Lemma update_frame_Ok state pi fi f p fr fr' :
  state.(players) .!! pi = Some p → p.(frames) .!! fi = Some fr → f fr = Ok fr' →
  update_frame state pi fi f =
    Ok (set_players (js_set state.(players) pi (set_frames (js_set p.(frames) fi fr') p)) state).
Proof. intros Hp Hfr Hf. unfold update_frame, js_at. rewrite Hp; simpl; rewrite Hfr; simpl; by rewrite Hf. Qed.

Lemma update_frame_inv state pi fi f g :
  update_frame state pi fi f = Ok g →
  ∃ p fr fr', state.(players) .!! pi = Some p ∧ p.(frames) .!! fi = Some fr ∧
    f fr = Ok fr' ∧
    g = set_players (js_set state.(players) pi (set_frames (js_set p.(frames) fi fr') p)) state.
Proof.
  unfold update_frame, js_at. intros H.
  inv_bind H. inv_bind H. inv_bind H. injection H as <-.
  destruct (players state .!! pi) eqn:?; [|discriminate]; injection Ha as ->.
  destruct (frames _ .!! fi) eqn:?; [|discriminate]; injection Ha0 as ->.
  eauto 10.
Qed.

(** A draft update that finds no player throws. *)
Lemma update_frame_no_player state pi fi f :
  state.(players) .!! pi = None → update_frame state pi fi f = TypeError.
Proof. intros H. unfold update_frame, js_at. by rewrite H. Qed.
End UpdateFrame.

(** ** The [addToStrike] case *)

(** C14: the [addToStrike] case credits the wrong player: it indexes
    [players] with [currentPlayer.playerNumber], a 1-based number, without
    subtracting 1, so when it succeeds it has written a frame of the player
    after the current one and left the current player's frames as they
    were. *)
Theorem addToStrike_skips_current_player g k si pins g' :
  g.(currentPlayer).(playerNumber) = Some k → 1 ≤ k →
  gameReducer g (mkAction addToStrike (Some pins) None None (Some si)) = Ok g' →
  g'.(players) .!! (k - 1) = g.(players) .!! (k - 1) ∧ is_Some (g.(players) .!! k).
Proof.
  intros Hk H1. unfold gameReducer, reduce_addToStrike. simpl. rewrite Hk.
  intros (p & fr & fr' & Hp & _ & _ & ->)%update_frame_inv. simpl.
  split; [apply js_get_set_ne; lia | by eexists].
Qed.

Lemma addToStrike_skips_current_player_witness :
  let g := set_players [newPlayer 1; newPlayer 2] (set_currentPlayer (newPlayer 1) gameInitialState) in
  ∃ g', gameReducer g (mkAction addToStrike (Some 3) None None (Some 0)) = Ok g' ∧
    g.(currentPlayer).(playerNumber) = Some 1 ∧ 1 ≤ 1 ∧
    g'.(players) .!! (1 - 1) = g.(players) .!! (1 - 1) ∧ is_Some (g.(players) .!! 1).
Proof.
  cbv zeta. eexists. split; [reflexivity|]. split; [reflexivity|]. split; [lia|].
  apply (addToStrike_skips_current_player _ 1 0 3); [reflexivity | lia | reflexivity].
Defined.

(** C15: for the last player, the [addToStrike] case throws: it reads
    [players[players.length]], which is [undefined], and then its
    [frames]. *)
Theorem addToStrike_last_player_throws g si pins :
  g.(currentPlayer).(playerNumber) = Some (Z.of_nat (length g.(players))) →
  gameReducer g (mkAction addToStrike (Some pins) None None (Some si)) = TypeError.
Proof.
  intros Hk. unfold gameReducer, reduce_addToStrike. simpl. rewrite Hk.
  apply update_frame_no_player, js_get_ge. lia.
Qed.

Lemma addToStrike_last_player_throws_witness :
  let g := set_players [newPlayer 1] (set_currentPlayer (newPlayer 1) gameInitialState) in
  g.(currentPlayer).(playerNumber) = Some (Z.of_nat (length g.(players))) ∧
  gameReducer g (mkAction addToStrike (Some 3) None None (Some 0)) = TypeError.
Proof. cbv zeta. split; [reflexivity | apply addToStrike_last_player_throws; reflexivity]. Defined.

