(* ===== verification/Handlers.v ===== *)
(** The event handlers of [App] and their helpers
    ([src/src/App.tsx:213-322]).

    A handler reads the state rendered last ([game]) and returns the list of
    actions it passes to [gameDispatch], in order; none of its reads sees
    the effect of its own dispatches.  [Math.random()] is the rational
    argument [r] of [roll] and [handleRoll], with [0 <= r < 1]. *)

From Stdlib Require Import ZArith QArith Qround Lqa Lia.
From stdpp Require Import base list strings.
From S2P Require Import Prelude Runtime Model Reducer.

Open Scope Z_scope.

(** [getMinOfRange] (line 213) *)
Definition getMinOfRange (currentPins : Z) : Z := 10 - currentPins.

(** [calculateWinner] (lines 215-223).  [winnerScore] is never updated,
    and [player.playerNumber as number] of a [null] number leaves the
    model. *)
Definition calculateWinner (game : Game) : outcome Z :=
  let winnerScore := 0 in
  fold_left (λ acc player,
      winner ← acc;
      if winnerScore <? player.(score) then stored player.(playerNumber) else Ok winner)
    game.(players) (Ok (-1)).

(** [roll] (lines 225-229), for the integer bounds the program passes:
    [Math.ceil] and [Math.floor] of an integer are the identity. *)
Definition roll (min max : Z) (r : Q) : Z :=
  Qfloor (r * inject_Z (max - min + 1) + inject_Z min).

(** [getPreviousStrikes] (lines 231-242), reading the stale
    [game.currentPlayer]. *)
Definition getPreviousStrikes (game : Game) : outcome Z :=
  let cfn := game.(currentFrameNumber) in
  let fs := game.(currentPlayer).(frames) in
  if cfn =? 1 then Ok (-1) else
  f1 ← js_at fs (cfn - 1);
  if f1.(strike) then Ok (cfn - 1) else
  f2 ← js_at fs (cfn - 2);
  if f2.(strike) && (2 <=? Z.of_nat (length fs)) then Ok (cfn - 2) else Ok (-1).

(** [getPreviousSpares] (lines 244-250) *)
Definition getPreviousSpares (game : Game) : outcome Z :=
  let cfn := game.(currentFrameNumber) in
  let fs := game.(currentPlayer).(frames) in
  if Z.of_nat (length fs) <? 1 then Ok (-1) else
  f ← js_at fs (cfn - 1);
  if f.(spare) then Ok (cfn - 1) else Ok (-1).

(** [handleAddPlayer] (lines 252-255) *)
Definition handleAddPlayer (game : Game) : outcome (list GameAction) :=
  Ok [act (if decide (length game.(players) = 0%nat) then addFirstPlayer else addPlayer)].

(** The [null] of [currentPlayer.playerNumber! - 1] converts to [0]. *)
Definition num_of_null (o : option Z) : Z :=
  match o with Some n => n | None => 0 end.

(** The lower bound of the pin draw (lines 269-271). *)
Definition rollMin (currentFrame : Frame) : Z :=
  if 0 <? currentFrame.(total) then getMinOfRange currentFrame.(total) else 0.

(** The first dispatch of [handleRoll] (lines 275-296). *)
Definition rollAction (pn : option Z) (rn pinsDown strikeIndex spareIndex : Z)
    : GameAction :=
  if (pinsDown =? 10) && (rn =? 1) then mkAction recordStrike (Some pinsDown) pn None None
  else if (pinsDown =? 10) && (rn =? 2) then mkAction recordSpare (Some pinsDown) pn None None
  else if negb (strikeIndex =? -1) then mkAction addToStrike (Some pinsDown) None None (Some strikeIndex)
  else if negb (spareIndex =? -1) then mkAction addToSpare (Some pinsDown) None (Some spareIndex) None
  else mkAction addToScore (Some pinsDown) pn None None.

(** The second dispatch of [handleRoll] (lines 298-321). *)
Definition turnAction (game : Game) (rn : Z) : outcome GameAction :=
  let pn := game.(currentPlayer).(playerNumber) in
  let isLastPlayer := bool_decide (pn = Some (Z.of_nat (length game.(players)))) in
  if (rn =? 2) && isLastPlayer && (game.(currentFrameNumber) =? 10) then
    winnerNumber ← calculateWinner game;
    Ok (mkAction callWinner None (Some winnerNumber) None None)
  else if (rn =? 2) && isLastPlayer then Ok (mkAction nextFrame None pn None None)
  else if rn =? 2 then Ok (mkAction nextPlayer None pn None None)
  else Ok (mkAction nextRoll None pn None None).

(** [handleRoll] (lines 257-322) *)
Definition handleRoll (game : Game) (r : Q) : outcome (list GameAction) :=
  if 9 <? game.(currentFrameNumber) then Ok [] else
  let pn := game.(currentPlayer).(playerNumber) in
  pl ← js_at game.(players) (num_of_null pn - 1);
  currentFrame ← js_at pl.(frames) (game.(currentFrameNumber) - 1);
  if 2 <? currentFrame.(rollNumber) then Ok [] else
  strikeIndex ← getPreviousStrikes game;
  spareIndex ← getPreviousSpares game;
  let pinsDown := roll (rollMin currentFrame) 10 r in
  a2 ← turnAction game currentFrame.(rollNumber);
  Ok [rollAction pn currentFrame.(rollNumber) pinsDown strikeIndex spareIndex; a2].

(** ** The pin draw *)

Lemma roll_lower min max r :
  min ≤ max → (0 <= r)%Q → min ≤ roll min max r.
Proof.
  intros Hm Hr. unfold roll.
  rewrite <- (Qfloor_Z min) at 1. apply Qfloor_resp_le.
  assert (0 <= inject_Z (max - min + 1))%Q by (change 0%Q with (inject_Z 0); rewrite <- Zle_Qle; lia).
  nra.
Qed.

Lemma roll_upper min max r :
  min ≤ max → (r < 1)%Q → (0 <= r)%Q → roll min max r ≤ max.
Proof.
  intros Hm Hr1 Hr0. unfold roll.
  set (x := (r * inject_Z (max - min + 1) + inject_Z min)%Q).
  assert (x < inject_Z (max + 1))%Q.
  { subst x. assert (0 < inject_Z (max - min + 1))%Q by (change 0%Q with (inject_Z 0); rewrite <- Zlt_Qlt; lia).
    assert (inject_Z (max + 1) == inject_Z (max - min + 1) + inject_Z min)%Q as ->.
    { rewrite <- inject_Z_plus. by replace (max - min + 1 + min) with (max + 1) by lia. }
    nra. }
  pose proof (Qfloor_le x) as Hf.
  assert (Qfloor x < max + 1); [|lia].
  rewrite Zlt_Qlt. eapply Qle_lt_trans; eauto.
Qed.

(** The draw of [Math.random()] that makes [roll min max] return [k]. *)
Definition draw_for (min max k : Z) : Q := (inject_Z (k - min) / inject_Z (max - min + 1))%Q.

Lemma draw_for_valid min max k :
  min ≤ k ≤ max → (0 <= draw_for min max k)%Q ∧ (draw_for min max k < 1)%Q.
Proof.
  intros Hk. unfold draw_for.
  assert (0 < inject_Z (max - min + 1))%Q as Hw
    by (change 0%Q with (inject_Z 0); rewrite <- Zlt_Qlt; lia).
  split.
  - apply Qle_shift_div_l; [done|]. rewrite Qmult_0_l.
    change 0%Q with (inject_Z 0). rewrite <- Zle_Qle. lia.
  - apply Qlt_shift_div_r; [done|]. rewrite Qmult_1_l, <- Zlt_Qlt. lia.
Qed.

Lemma roll_draw_for min max k :
  min ≤ k ≤ max → roll min max (draw_for min max k) = k.
Proof.
  intros Hk. unfold roll, draw_for.
  assert (~ inject_Z (max - min + 1) == 0)%Q as Hw.
  { change 0%Q with (inject_Z 0). rewrite inject_Z_injective. lia. }
  rewrite <- (Qfloor_Z k) at 2. apply Qfloor_comp.
  rewrite Qmult_comm, Qmult_div_r by exact Hw.
  rewrite <- inject_Z_plus. by replace (k - min + min) with k by lia.
Qed.
(** ** The pin draw *)

(** C8: [roll min max] returns an integer of [[min, max]] for every value
    of [Math.random()] in [[0, 1)]. *)
Theorem roll_in_range min max r :
  min ≤ max → (0 <= r)%Q → (r < 1)%Q → min ≤ roll min max r ≤ max.
Proof. intros Hm Hr0 Hr1. split; [by apply roll_lower | by apply roll_upper]. Qed.

Lemma roll_in_range_witness :
  0 ≤ 10 ∧ (0 <= 1 # 2)%Q ∧ (1 # 2 < 1)%Q ∧ 0 ≤ roll 0 10 (1 # 2) ≤ 10.
Proof.
  assert (0 ≤ 10) as H1 by lia.
  assert (0 <= 1 # 2)%Q as H2 by (vm_compute; discriminate).
  assert (1 # 2 < 1)%Q as H3 by reflexivity.
  split_and!; [exact H1 | exact H2 | exact H3 | apply (roll_in_range 0 10 (1 # 2) H1 H2 H3)..].
Defined.

(** C9: every integer of [[min, max]] is drawn by some value of
    [Math.random()] in [[0, 1)]. *)
Theorem roll_hits_every_value min max k :
  min ≤ k ≤ max → ∃ r, (0 <= r)%Q ∧ (r < 1)%Q ∧ roll min max r = k.
Proof.
  intros Hk. exists (draw_for min max k).
  destruct (draw_for_valid min max k Hk). split_and!; [done | done | by apply roll_draw_for].
Qed.

Lemma roll_hits_every_value_witness :
  0 ≤ 7 ≤ 10 ∧ ∃ r, (0 <= r)%Q ∧ (r < 1)%Q ∧ roll 0 10 r = 7.
Proof. split; [lia | apply roll_hits_every_value; lia]. Defined.


(** ** The winner *)

(** The reference the code computes: the last player, in the order of
    [players], whose score is positive. *)
Fixpoint last_scorer (ps : list Player) : option Player :=
  match ps with
  | [] => None
  | p :: ps =>
      match last_scorer ps with
      | Some q => Some q
      | None => if 0 <? p.(score) then Some p else None
      end
  end.

Lemma calculateWinner_fold ps acc :
  Forall (λ p, is_Some p.(playerNumber)) ps →
  fold_left (λ acc player,
      winner ← acc;
      if 0 <? player.(score) then stored player.(playerNumber) else Ok winner) ps (Ok acc) =
  Ok (match last_scorer ps with Some p => default (-1) p.(playerNumber) | None => acc end).
Proof.
  revert acc. induction ps as [|p ps IH]; intros acc Hps; [done|].
  apply Forall_cons in Hps as [[k Hk] Hps]. simpl.
  destruct (Z.ltb_spec 0 (score p)); rewrite ?Hk; simpl; rewrite IH by done;
    destruct (last_scorer ps); [done | by rewrite Hk | done | done].
Qed.

(** C23: [calculateWinner] is the last positive scorer, not the best one:
    when every player has a number, it returns the number of the last
    player in [players] whose score is positive, or [-1] when there is
    none ([winnerScore] stays 0, so every positive score beats it). *)
Theorem calculateWinner_last_scorer g :
  Forall (λ p, is_Some p.(playerNumber)) g.(players) →
  calculateWinner g =
    Ok (match last_scorer g.(players) with Some p => default (-1) p.(playerNumber) | None => -1 end).
Proof. intros Hps. apply (calculateWinner_fold _ (-1) Hps). Qed.

Lemma calculateWinner_last_scorer_witness :
  let g := set_players [mkPlayer (Some 1) 180 []; mkPlayer (Some 2) 150 []] gameInitialState in
  Forall (λ p, is_Some p.(playerNumber)) g.(players) ∧
  calculateWinner g =
    Ok (match last_scorer g.(players) with Some p => default (-1) p.(playerNumber) | None => -1 end) ∧
  calculateWinner g = Ok 2.
Proof.
  cbv zeta.
  assert (Forall (λ p, is_Some p.(playerNumber)) [mkPlayer (Some 1) 180 []; mkPlayer (Some 2) 150 []])
    as Hf by (repeat constructor; eexists; reflexivity).
  split_and!; [exact Hf | apply calculateWinner_last_scorer; exact Hf | reflexivity].
Defined.
