(* ===== verification/State.v ===== *)
(** The state invariant [wf] of the application and the lemmas that read
    it: players numbered 1..n, ten well-formed frames each, a current
    player that is a copy of a real one, the frame cursor in 1..10, and an
    empty winner. *)

From Stdlib Require Import ZArith QArith Lia.
From stdpp Require Import base list strings.
From S2P Require Import Prelude Runtime Model Reducer Handlers.

Open Scope Z_scope.

(** ** The state invariant *)

Definition frame_ok (f : Frame) : Prop :=
  (f.(rollNumber) = 1 ∨ f.(rollNumber) = 2) ∧ f.(strike) = false ∧ f.(spare) = false.

Definition player_ok (p : Player) : Prop :=
  p.(score) = 0 ∧ length p.(frames) = 10%nat ∧ Forall frame_ok p.(frames).

(** Player [i] (from 0) has number [i + 1]. *)
Definition numbered (ps : list Player) : Prop :=
  playerNumber <$> ps = (λ i : nat, Some (Z.of_nat i + 1)) <$> seq 0 (length ps).

(** The stale copy [currentPlayer] is a well-formed player whose number
    [k] is in [1..n], and [k < n] once there are two players or more. *)
Definition current_ok (ps : list Player) (cp : Player) : Prop :=
  match ps, cp.(playerNumber) with
  | [], _ => cp = gameInitialState.(currentPlayer)
  | _ :: _, Some k =>
      let n := Z.of_nat (length ps) in
      1 ≤ k ≤ n ∧ (n = 1 ∨ k < n) ∧ player_ok cp
  | _ :: _, None => False
  end.

Definition wf (g : Game) : Prop :=
  Forall player_ok g.(players) ∧ numbered g.(players) ∧
  current_ok g.(players) g.(currentPlayer) ∧
  1 ≤ g.(currentFrameNumber) ≤ 10 ∧ g.(winner) = "".

#[export] Instance frame_ok_dec f : Decision (frame_ok f).
Proof. unfold frame_ok. apply _. Defined.
#[export] Instance player_ok_dec p : Decision (player_ok p).
Proof. unfold player_ok. apply _. Defined.
#[export] Instance current_ok_dec ps cp : Decision (current_ok ps cp).
Proof. unfold current_ok. destruct ps, (playerNumber cp); apply _. Defined.
#[export] Instance wf_dec g : Decision (wf g).
Proof. unfold wf, numbered. apply _. Defined.

(** ** Reading the invariant *)

Lemma numbered_lookup ps i p :
  numbered ps → ps !! i = Some p → p.(playerNumber) = Some (Z.of_nat i + 1).
Proof.
  unfold numbered. intros Hn Hi.
  assert (((playerNumber <$> ps) : list (option Z)) !! i = Some p.(playerNumber)) as Hl
    by (rewrite list_lookup_fmap, Hi; done).
  rewrite Hn, list_lookup_fmap, lookup_seq_lt in Hl by (apply lookup_lt_Some in Hi; done).
  simpl in Hl. by injection Hl as <-.
Qed.

Lemma numbered_app ps p :
  numbered ps → p.(playerNumber) = Some (Z.of_nat (length ps) + 1) → numbered (ps ++ [p]).
Proof.
  unfold numbered. intros Hn Hp.
  rewrite fmap_app, Hn, length_app, seq_app, fmap_app. simpl.
  by rewrite Hp.
Qed.

Lemma numbered_set ps i p fs :
  numbered ps → ps !! Z.to_nat i = Some p → numbered (js_set ps i (set_frames fs p)).
Proof.
  unfold numbered, js_set. intros Hn Hi.
  rewrite list_fmap_insert, length_insert. simpl.
  rewrite list_insert_id; [done|]. by rewrite list_lookup_fmap, Hi.
Qed.

Lemma player_ok_frame p j :
  player_ok p → 0 ≤ j < 10 → ∃ fr, p.(frames) .!! j = Some fr ∧ frame_ok fr.
Proof.
  intros (_ & Hlen & Hfs) Hj.
  destruct (js_get_in_range p.(frames) j) as [fr Hfr]; [lia|].
  exists fr. split; [done|]. by eapply js_get_Forall.
Qed.

Lemma player_ok_set_frame p j fr :
  player_ok p → frame_ok fr → player_ok (set_frames (js_set p.(frames) j fr) p).
Proof.
  intros (Hs & Hlen & Hfs) Hfr. split_and!; simpl; [done | by rewrite length_js_set | ].
  by apply js_set_Forall.
Qed.

(** The current player of a non-empty game is found in [players]. *)
Lemma wf_current g :
  wf g → g.(players) ≠ [] →
  ∃ k p, g.(currentPlayer).(playerNumber) = Some k ∧ g.(players) .!! (k - 1) = Some p ∧
    player_ok p ∧ p.(playerNumber) = Some k ∧ player_ok g.(currentPlayer) ∧
    1 ≤ k ≤ Z.of_nat (length g.(players)) ∧
    (Z.of_nat (length g.(players)) = 1 ∨ k < Z.of_nat (length g.(players))).
Proof.
  intros (Hps & Hnum & Hcur & _) Hne.
  unfold current_ok in Hcur.
  destruct (players g) as [|p0 ps] eqn:Eps; [done|].
  destruct (playerNumber (currentPlayer g)) as [k|] eqn:Ek; [|done].
  destruct Hcur as (Hk & Hlast & Hcp).
  destruct (js_get_in_range (p0 :: ps) (k - 1)) as [p Hp]; [lia|].
  exists k, p. split_and!; try done.
  - by eapply js_get_Forall.
  - rewrite js_get_lookup in Hp by lia.
    rewrite (numbered_lookup _ _ _ Hnum Hp). f_equal. lia.
  - lia.
  - lia.
Qed.

Lemma current_ok_length ps ps' cp :
  length ps = length ps' → current_ok ps cp → current_ok ps' cp.
Proof.
  destruct ps as [|p ps], ps' as [|p' ps']; simpl; intros Hlen; try done.
  unfold current_ok. simpl. by rewrite Hlen.
Qed.

(** Writing a well-formed frame through the draft keeps the invariant. *)
Lemma wf_set_frame g pi p fi fr' :
  wf g → g.(players) .!! pi = Some p → frame_ok fr' →
  wf (set_players (js_set g.(players) pi (set_frames (js_set p.(frames) fi fr') p)) g).
Proof.
  intros (Hps & Hnum & Hcur & Hcfn & Hw) Hp Hfr.
  pose proof (js_get_Some_range _ _ _ Hp) as Hr.
  rewrite js_get_lookup in Hp by lia.
  unfold wf; simpl; split_and!; try done.
  - apply js_set_Forall; [done|]. apply player_ok_set_frame; [|done].
    eapply Forall_lookup_1; eauto.
  - by eapply numbered_set.
  - eapply current_ok_length; [|exact Hcur]. by rewrite length_js_set.
  - lia.
  - lia.
Qed.

(** A draft update whose mutation keeps frames well formed keeps the
    invariant and touches nothing but [players]. *)
Lemma wf_update_frame g pi fi f g' :
  wf g → (∀ fr fr', frame_ok fr → f fr = Ok fr' → frame_ok fr') →
  update_frame g pi fi f = Ok g' →
  wf g' ∧ g'.(currentPlayer) = g.(currentPlayer) ∧
  g'.(currentFrameNumber) = g.(currentFrameNumber) ∧
  length g'.(players) = length g.(players) ∧ g'.(winner) = g.(winner).
Proof.
  intros Hwf Hf (p & fr & fr' & Hp & Hfr & Hffr & ->)%update_frame_inv.
  split_and!; simpl; try done.
  - apply wf_set_frame; [done..|]. eapply Hf; [|done].
    destruct Hwf as (Hps & _). eapply js_get_Forall; [|exact Hfr].
    by destruct (js_get_Forall _ _ _ _ Hps Hp) as (_ & _ & Hfs).
  - apply length_js_set.
Qed.

