(* ===== verification/Invariant.v ===== *)
(** One click under the invariant [wf]: what [handleRoll] dispatches in a
    well-formed state, the effect of each dispatched action, and the
    preservation of [wf] by every click. *)

From Stdlib Require Import ZArith QArith Lia.
From stdpp Require Import base list strings.
From S2P Require Import Prelude Runtime Model Reducer Handlers State.

Open Scope Z_scope.

(** [players[i].frames[j]] *)
Definition frame_at (g : Game) (i j : Z) : option Frame :=
  p ← g.(players) .!! i; p.(frames) .!! j.

(** The action type of the second dispatch of a roll, when [calculateWinner]
    is not reached. *)
Definition turn_type (n k rn : Z) : GameActionType :=
  if rn =? 2 then (if k =? n then nextFrame else nextPlayer) else nextRoll.

Lemma wf_init : wf gameInitialState.
Proof. apply (bool_decide_unpack _). by vm_compute. Qed.

(** ** Writing a frame *)

Section WriteFrame.
Context (g : Game) (pi fi : Z) (p : Player) (fr' : Frame).
Hypothesis Hwf : wf g.
Hypothesis Hp : g.(players) .!! pi = Some p.
Let g1 := set_players (js_set g.(players) pi (set_frames (js_set p.(frames) fi fr') p)) g.

Lemma written_player : g1.(players) .!! pi = Some (set_frames (js_set p.(frames) fi fr') p).
Proof. apply js_get_set_eq. by apply js_get_Some_range in Hp. Qed.

Lemma frame_at_written_eq :
  (0 ≤ fi < 10) → frame_at g1 pi fi = Some fr'.
Proof.
  intros Hfi. unfold frame_at. rewrite written_player. simpl.
  apply js_get_set_eq.
  destruct Hwf as (Hps & _). destruct (js_get_Forall _ _ _ _ Hps Hp) as (_ & Hlen & _). lia.
Qed.

Lemma frame_at_written_ne j :
  j ≠ fi → (0 ≤ fi) → frame_at g1 pi j = frame_at g pi j.
Proof.
  intros Hj Hfi. unfold frame_at. rewrite written_player, Hp. simpl.
  by apply js_get_set_ne.
Qed.

Lemma frame_at_written_other i j :
  i ≠ pi → frame_at g1 i j = frame_at g i j.
Proof.
  intros Hi. unfold frame_at, g1. simpl. rewrite (js_get_set_ne _ pi i); [done | congruence |].
  apply js_get_Some_range in Hp; lia.
Qed.
End WriteFrame.

(** ** The helpers in a well-formed state *)

Lemma getPreviousStrikes_wf g :
  wf g → g.(players) ≠ [] → getPreviousStrikes g = Ok (-1).
Proof.
  intros Hwf Hne.
  destruct (wf_current g Hwf Hne) as (k & p & _ & _ & _ & _ & Hcp & _).
  destruct Hwf as (_ & _ & _ & Hcfn & _).
  unfold getPreviousStrikes; cbv zeta.
  destruct (Z.eqb_spec (currentFrameNumber g) 1); [done|].
  destruct (player_ok_frame _ (currentFrameNumber g - 1) Hcp) as (f1 & Hf1 & _ & Hs1 & _); [lia|].
  destruct (player_ok_frame _ (currentFrameNumber g - 2) Hcp) as (f2 & Hf2 & _ & Hs2 & _); [lia|].
  unfold js_at. rewrite Hf1. simpl. rewrite Hs1, Hf2. simpl. by rewrite Hs2.
Qed.

Lemma getPreviousSpares_wf g :
  wf g → g.(players) ≠ [] → getPreviousSpares g = Ok (-1).
Proof.
  intros Hwf Hne.
  destruct (wf_current g Hwf Hne) as (k & p & _ & _ & _ & _ & Hcp & _).
  destruct Hwf as (_ & _ & _ & Hcfn & _).
  unfold getPreviousSpares; cbv zeta.
  destruct (player_ok_frame _ (currentFrameNumber g - 1) Hcp) as (f1 & Hf1 & _ & _ & Hs1); [lia|].
  destruct Hcp as (_ & Hlen & _). rewrite Hlen. simpl.
  unfold js_at. rewrite Hf1. simpl. by rewrite Hs1.
Qed.

(** What a click on Roll dispatches in a well-formed game with players,
    before frame 10. *)
Lemma handleRoll_wf g r :
  wf g → g.(players) ≠ [] → g.(currentFrameNumber) ≤ 9 →
  ∃ k p cf,
    g.(currentPlayer).(playerNumber) = Some k ∧ g.(players) .!! (k - 1) = Some p ∧
    p.(frames) .!! (g.(currentFrameNumber) - 1) = Some cf ∧
    handleRoll g r =
      Ok [rollAction (Some k) cf.(rollNumber) (roll (rollMin cf) 10 r) (-1) (-1);
          mkAction (turn_type (Z.of_nat (length g.(players))) k cf.(rollNumber)) None (Some k) None None].
Proof.
  intros Hwf Hne H9.
  pose proof (getPreviousStrikes_wf g Hwf Hne) as Hst.
  pose proof (getPreviousSpares_wf g Hwf Hne) as Hsp.
  destruct (wf_current g Hwf Hne) as (k & p & Hk & Hp & Hpok & _ & _ & Hkr & _).
  pose proof Hwf as (_ & _ & _ & Hcfn & _).
  destruct (player_ok_frame p (currentFrameNumber g - 1) Hpok) as (cf & Hcf & Hrn & _); [lia|].
  exists k, p, cf. split_and!; try done.
  unfold handleRoll; cbv zeta.
  destruct (Z.ltb_spec 9 (currentFrameNumber g)); [lia|].
  rewrite Hk. unfold num_of_null, js_at. rewrite Hp. simpl. rewrite Hcf. simpl.
  destruct (Z.ltb_spec 2 (rollNumber cf)); [lia|].
  rewrite Hst, Hsp. simpl.
  unfold turnAction, turn_type; cbv zeta. rewrite Hk.
  destruct (Z.eqb_spec (currentFrameNumber g) 10); [lia|].
  rewrite !andb_false_r. simpl.
  destruct (Z.eqb_spec (rollNumber cf) 2), (Z.eqb_spec k (Z.of_nat (length (players g)))); simpl;
    repeat case_bool_decide; simplify_eq; done.
Qed.

(** ** The first dispatch of a roll *)

(** The frame after [addToScore] with [pinsDown] given. *)
Definition score_frame (cf : Frame) (p : Z) : Frame :=
  if cf.(rollNumber) =? 1 then set_total p (set_firstRoll p cf)
  else if cf.(rollNumber) =? 2 then set_total (cf.(firstRoll) + p) (set_secondRoll (cf.(firstRoll) + p) cf)
  else cf.

Lemma frame_ok_total fr v : frame_ok fr → frame_ok (set_total v fr).
Proof. intros (Hr & Hs & Hp). unfold frame_ok; simpl. tauto. Qed.

Lemma frame_ok_firstRoll fr v : frame_ok fr → frame_ok (set_firstRoll v fr).
Proof. intros (Hr & Hs & Hp). unfold frame_ok; simpl. tauto. Qed.

Lemma frame_ok_secondRoll fr v : frame_ok fr → frame_ok (set_secondRoll v fr).
Proof. intros (Hr & Hs & Hp). unfold frame_ok; simpl. tauto. Qed.

Lemma frame_ok_rollNumber fr v : frame_ok fr → (v = 1 ∨ v = 2) → frame_ok (set_rollNumber v fr).
Proof. intros (Hr & Hs & Hp) Hv. unfold frame_ok; simpl. tauto. Qed.

#[export] Hint Resolve frame_ok_total frame_ok_firstRoll frame_ok_secondRoll
  frame_ok_rollNumber : js.

Lemma score_frame_ok cf p : frame_ok cf → frame_ok (score_frame cf p).
Proof. intros H. unfold score_frame. repeat case_if; auto with js. Qed.

Lemma score_frame_rollNumber cf p : (score_frame cf p).(rollNumber) = cf.(rollNumber).
Proof. unfold score_frame. by repeat case_if. Qed.

(** The common shape of a successful draft update in a well-formed state. *)
Definition updated (g g1 : Game) (pi : Z) : Prop :=
  wf g1 ∧ g1.(currentPlayer) = g.(currentPlayer) ∧
  g1.(currentFrameNumber) = g.(currentFrameNumber) ∧
  length g1.(players) = length g.(players) ∧ g1.(winner) = g.(winner) ∧
  ∀ i, i ≠ pi → g1.(players) .!! i = g.(players) .!! i.

Lemma write_frame_updated g pi fi p fr' :
  wf g → g.(players) .!! pi = Some p → frame_ok fr' →
  updated g (set_players (js_set g.(players) pi (set_frames (js_set p.(frames) fi fr') p)) g) pi.
Proof.
  intros Hwf Hp Hfr. split_and!; simpl; try done.
  - by apply wf_set_frame.
  - apply length_js_set.
  - intros i Hi. apply js_get_set_ne; [congruence|].
    apply js_get_Some_range in Hp; lia.
Qed.

(** [players[pi].frames[fi]] of a well-formed player exists for [fi] in
    [0..9], and writing it through [update_frame] succeeds. *)
Lemma update_frame_wf g pi fi p f fr' :
  wf g → g.(players) .!! pi = Some p → 0 ≤ fi < 10 →
  (∀ fr, frame_ok fr → f fr = Ok (fr' fr) ∧ frame_ok (fr' fr)) →
  ∃ fr, p.(frames) .!! fi = Some fr ∧
    update_frame g pi fi f =
      Ok (set_players (js_set g.(players) pi (set_frames (js_set p.(frames) fi (fr' fr)) p)) g) ∧
    updated g (set_players (js_set g.(players) pi (set_frames (js_set p.(frames) fi (fr' fr)) p)) g) pi.
Proof.
  intros Hwf Hp Hfi Hf.
  pose proof Hwf as (Hps & _).
  destruct (player_ok_frame p fi) as (fr & Hfr & Hok); [by eapply js_get_Forall | done |].
  destruct (Hf fr Hok) as [Hffr Hok'].
  exists fr. split_and!; [done | by eapply update_frame_Ok | by apply write_frame_updated].
Qed.

Lemma frame_at_lookup g i j p :
  g.(players) .!! i = Some p → frame_at g i j = p.(frames) .!! j.
Proof. intros Hp. unfold frame_at. by rewrite Hp. Qed.

Section RollStep.
Context (g : Game) (k : Z) (p : Player) (cf : Frame).
Hypothesis Hwf : wf g.
Hypothesis H9 : g.(currentFrameNumber) ≤ 9.
Hypothesis Hk : 1 ≤ k.
Hypothesis Hp : g.(players) .!! (k - 1) = Some p.
Hypothesis Hcf : p.(frames) .!! (g.(currentFrameNumber) - 1) = Some cf.

Lemma player_ok_p : player_ok p.
Proof. destruct Hwf as (Hps & _). by eapply js_get_Forall. Qed.

Lemma frame_ok_cf : frame_ok cf.
Proof. destruct player_ok_p as (_ & _ & Hfs). by eapply js_get_Forall. Qed.

(** A strike or a spare writes [frames[currentFrameNumber]]: the frame
    being bowled is left as it is. *)
Lemma mark_next_frame_step (h : Frame → Frame) :
  (∀ fr, frame_ok fr → frame_ok (h fr)) →
  ∃ g1, update_frame g (k - 1) g.(currentFrameNumber) (λ fr, Ok (h fr)) = Ok g1 ∧
    updated g g1 (k - 1) ∧ frame_at g1 (k - 1) (g.(currentFrameNumber) - 1) = Some cf ∧
    ∀ j, j < g.(currentFrameNumber) - 1 → frame_at g1 (k - 1) j = frame_at g (k - 1) j.
Proof.
  intros Hh. pose proof Hwf as (_ & _ & _ & Hcfn & _).
  destruct (update_frame_wf g (k - 1) g.(currentFrameNumber) p (λ fr, Ok (h fr)) h
              Hwf Hp ltac:(lia) ltac:(naive_solver)) as (fr & _ & Hupd & Hupdd).
  eexists. split_and!; [exact Hupd | exact Hupdd | |].
  - rewrite frame_at_written_ne by (done || lia). by rewrite (frame_at_lookup _ _ _ p).
  - intros j Hj. apply frame_at_written_ne; [done | lia | lia].
Qed.

Lemma rollAction_step pins :
  ∃ g1, gameReducer g (rollAction (Some k) cf.(rollNumber) pins (-1) (-1)) = Ok g1 ∧
    updated g g1 (k - 1) ∧
    frame_at g1 (k - 1) (g.(currentFrameNumber) - 1) =
      Some (if pins =? 10 then cf else score_frame cf pins) ∧
    ∀ j, j < g.(currentFrameNumber) - 1 → frame_at g1 (k - 1) j = frame_at g (k - 1) j.
Proof.
  pose proof Hwf as (_ & _ & _ & Hcfn & _).
  pose proof frame_ok_cf as Hok. destruct Hok as (Hrn & _).
  unfold rollAction. destruct (Z.eqb_spec pins 10) as [->|Hne]; simpl.
  - destruct Hrn as [-> | ->]; simpl.
    + apply mark_next_frame_step. auto with js.
    + unfold gameReducer, reduce_recordSpare; simpl. destruct (Z.eqb_spec k 0); [lia|].
      apply mark_next_frame_step. auto with js.
  - destruct (Z.eqb_spec pins 10); [done|]. simpl.
    unfold gameReducer, reduce_addToScore; simpl. destruct (Z.eqb_spec k 0); [lia|].
    match goal with |- context [update_frame _ _ _ ?f] =>
      destruct (update_frame_wf g (k - 1) (g.(currentFrameNumber) - 1) p f (λ fr, score_frame fr pins)
                  Hwf Hp ltac:(lia)) as (fr & Hfr & Hupd & Hupdd) end.
    { intros fr Hfr. split; [|by apply score_frame_ok].
      unfold score_frame, addToScore_frame. by repeat case_if. }
    eexists. split_and!; [exact Hupd | exact Hupdd | |].
    + rewrite Hfr in Hcf. injection Hcf as ->.
      apply frame_at_written_eq; [done.. | lia].
    + intros j Hj. apply frame_at_written_ne; [done | lia | lia].
Qed.
End RollStep.

(** ** The second dispatch of a roll *)

Lemma wf_set_cfn g c :
  wf g → 1 ≤ c ≤ 10 → wf (set_currentFrameNumber c g).
Proof. intros (Hps & Hnum & Hcur & _ & Hw) Hc. split_and!; simpl; try done; lia. Qed.

Lemma wf_set_currentPlayer g j p' :
  wf g → g.(players) .!! j = Some p' →
  (Z.of_nat (length g.(players)) = 1 ∨ j + 1 < Z.of_nat (length g.(players))) →
  wf (set_currentPlayer p' g).
Proof.
  intros (Hps & Hnum & Hcur & Hc & Hw) Hj Hlast.
  pose proof (js_get_Some_range _ _ _ Hj) as Hr.
  pose proof (js_get_Forall _ _ _ _ Hps Hj) as Hok.
  rewrite js_get_lookup in Hj by lia.
  pose proof (numbered_lookup _ _ _ Hnum Hj) as Hpn.
  split_and!; simpl; try done; try lia.
  unfold current_ok. destruct (players g) as [|p0 ps]; [simpl in Hr; lia|].
  rewrite Hpn. rewrite Z2Nat.id by lia. split_and!; auto; lia.
Qed.

Section TurnStep.
Context (g1 : Game) (k rn : Z) (p1 : Player) (cf1 : Frame).
Let n := Z.of_nat (length g1.(players)).
Hypothesis Hwf : wf g1.
Hypothesis H9 : g1.(currentFrameNumber) ≤ 9.
Hypothesis Hk : 1 ≤ k ≤ n.
Hypothesis Hlast : n = 1 ∨ k < n.
Hypothesis Hp : g1.(players) .!! (k - 1) = Some p1.
Hypothesis Hcf : p1.(frames) .!! (g1.(currentFrameNumber) - 1) = Some cf1.
Hypothesis Hrn : cf1.(rollNumber) = rn.

Let pok : player_ok p1.
Proof. destruct Hwf as (Hps & _). by eapply js_get_Forall. Qed.

Lemma nextRoll_step :
  rn = 1 →
  ∃ g2, gameReducer g1 (mkAction nextRoll None (Some k) None None) = Ok g2 ∧
    updated g1 g2 (k - 1) ∧
    frame_at g2 (k - 1) (g1.(currentFrameNumber) - 1) = Some (set_rollNumber 2 cf1).
Proof.
  intros ->. pose proof Hwf as (_ & _ & _ & Hcfn & _).
  assert (frame_ok cf1) as Hok by (destruct pok as (_ & _ & Hfs); by eapply js_get_Forall).
  unfold gameReducer, reduce_nextRoll; simpl.
  rewrite (update_frame_Ok _ _ _ _ p1 cf1 (set_rollNumber 2 cf1) Hp Hcf)
    by (unfold nextRoll_frame; by rewrite Hrn).
  eexists. split; [done | split; [apply write_frame_updated; auto with js |]].
  apply frame_at_written_eq; [done.. | lia].
Qed.

Lemma previousFrameTotal_ok :
  ∃ prev, previousFrameTotal p1 g1.(currentFrameNumber) = Ok prev.
Proof.
  pose proof Hwf as (_ & _ & _ & Hcfn & _). unfold previousFrameTotal.
  destruct (Z.leb_spec 2 (currentFrameNumber g1)); [|eauto].
  destruct (player_ok_frame p1 (currentFrameNumber g1 - 2) pok) as (fr & Hfr & _); [lia|].
  unfold js_at. rewrite Hfr. eauto.
Qed.

Lemma nextFrame_step :
  ∃ g2 prev, gameReducer g1 (mkAction nextFrame None (Some k) None None) = Ok g2 ∧
    previousFrameTotal p1 g1.(currentFrameNumber) = Ok prev ∧
    wf g2 ∧ g2.(currentFrameNumber) = g1.(currentFrameNumber) + 1 ∧
    length g2.(players) = length g1.(players) ∧ g2.(winner) = g1.(winner) ∧
    g2.(currentPlayer) = g1.(currentPlayer) ∧
    (∀ i, i ≠ k - 1 → g2.(players) .!! i = g1.(players) .!! i) ∧
    frame_at g2 (k - 1) (g1.(currentFrameNumber) - 1) =
      Some (set_total (prev + cf1.(firstRoll) + cf1.(secondRoll)) cf1).
Proof.
  pose proof Hwf as (_ & _ & _ & Hcfn & _).
  destruct previousFrameTotal_ok as (prev & Hprev).
  unfold gameReducer, reduce_nextFrame; simpl. unfold js_at at 1. rewrite Hp. simpl.
  rewrite Hprev. simpl.
  match goal with |- context [update_frame _ _ _ ?f] =>
    destruct (update_frame_wf g1 (k - 1) (g1.(currentFrameNumber) - 1) p1 f
                (λ fr, set_total (prev + fr.(firstRoll) + fr.(secondRoll)) fr)
                Hwf Hp ltac:(lia)) as (fr & Hfr & Hupd & Hupdd) end.
  { intros fr Hfr. split; [done | auto with js]. }
  rewrite Hupd. simpl.
  rewrite Hfr in Hcf. injection Hcf as ->.
  destruct Hupdd as (Hwf2 & Hcp2 & Hcfn2 & Hlen2 & Hw2 & Hoth2).
  eexists _, prev. split_and!; try done; try (simpl; lia); try exact Hoth2.
  - apply wf_set_cfn; [done | simpl; lia].
  - apply frame_at_written_eq; [done.. | lia].
Qed.

Lemma nextPlayer_step :
  k ≠ n →
  ∃ g2, gameReducer g1 (mkAction nextPlayer None (Some k) None None) = Ok g2 ∧
    wf g2 ∧ g2.(players) = g1.(players) ∧
    g2.(currentFrameNumber) = g1.(currentFrameNumber) ∧ g2.(winner) = g1.(winner) ∧
    g2.(currentPlayer).(playerNumber) = Some (if k =? n - 1 then 1 else k + 1).
Proof.
  intros Hkn. pose proof Hwf as (Hps & Hnum & _).
  unfold gameReducer, reduce_nextPlayer; simpl.
  destruct (Z.eqb_spec k 0); [lia|]. fold n.
  set (j := if k =? n - 1 then 0 else k).
  assert (0 ≤ j < n) as Hj by (subst j; destruct (Z.eqb_spec k (n - 1)); lia).
  destruct (js_get_in_range (players g1) j) as [p' Hp']; [done|].
  rewrite Hp'. simpl. eexists. split_and!; try done.
  - apply (wf_set_currentPlayer _ j); [done..|].
    fold n. subst j. destruct (Z.eqb_spec k (n - 1)); lia.
  - simpl. rewrite js_get_lookup in Hp' by lia.
    rewrite (numbered_lookup _ _ _ Hnum Hp'). subst j.
    destruct (Z.eqb_spec k (n - 1)); f_equal; lia.
Qed.
End TurnStep.
