(* ===== verification/Click.v ===== *)
(** A click on Roll or on Add player in a well-formed state, as one
    composed lemma each: the click succeeds, keeps [wf], and changes exactly
    what the two dispatched actions change. *)

From Stdlib Require Import ZArith QArith Lia.
From stdpp Require Import base list strings.
From S2P Require Import Prelude Runtime Model Reducer Handlers State Invariant.

Open Scope Z_scope.

(** The frame being bowled after the first dispatch of a roll of [pins]. *)
Definition rolled (cf : Frame) (pins : Z) : Frame :=
  if pins =? 10 then cf else score_frame cf pins.

(** [previousFrameTotal] read from a state. *)
Definition prev_total (g : Game) (k : Z) : Z :=
  if 2 <=? g.(currentFrameNumber) then
    default 0 (total <$> frame_at g (k - 1) (g.(currentFrameNumber) - 2))
  else 0.

Lemma rolled_rollNumber cf pins : (rolled cf pins).(rollNumber) = cf.(rollNumber).
Proof. unfold rolled. case_if; [done | apply score_frame_rollNumber]. Qed.

Lemma frame_at_Some g i j f :
  frame_at g i j = Some f → ∃ p, g.(players) .!! i = Some p ∧ p.(frames) .!! j = Some f.
Proof. unfold frame_at. intros (p & Hp & Hf)%bind_Some. eauto. Qed.

Lemma previousFrameTotal_frame_at g1 g k p1 :
  g1.(players) .!! (k - 1) = Some p1 →
  g1.(currentFrameNumber) = g.(currentFrameNumber) →
  (∀ j, j < g.(currentFrameNumber) - 1 → frame_at g1 (k - 1) j = frame_at g (k - 1) j) →
  ∀ prev, previousFrameTotal p1 g1.(currentFrameNumber) = Ok prev → prev = prev_total g k.
Proof.
  intros Hp1 Hc Hearly prev. unfold previousFrameTotal, prev_total. rewrite Hc.
  destruct (Z.leb_spec 2 (currentFrameNumber g)); [|by intros [= <-]].
  rewrite <- Hearly by lia. rewrite (frame_at_lookup _ _ _ p1 Hp1).
  unfold js_at. destruct (frames p1 .!! _); simpl; [by intros [= <-] | discriminate].
Qed.

(** A draft update of frame [fi] leaves the other frames of that player
    as they were. *)
Lemma update_frame_frame_at_ne state pi fi f g j :
  update_frame state pi fi f = Ok g → j ≠ fi → frame_at g pi j = frame_at state pi j.
Proof.
  intros (p & fr & fr' & Hp & Hfr & _ & ->)%update_frame_inv Hj.
  pose proof (js_get_Some_range _ _ _ Hp). pose proof (js_get_Some_range _ _ _ Hfr).
  unfold frame_at. simpl. rewrite js_get_set_eq, Hp by lia. simpl.
  apply js_get_set_ne; [done | lia].
Qed.

(** The second dispatch of a roll writes at most the frame being bowled. *)
Lemma turn_action_keeps_frame g1 n k rn g2 j :
  1 ≤ k → gameReducer g1 (mkAction (turn_type n k rn) None (Some k) None None) = Ok g2 →
  j ≠ g1.(currentFrameNumber) - 1 → frame_at g2 (k - 1) j = frame_at g1 (k - 1) j.
Proof.
  intros Hk H Hj. unfold turn_type in H.
  destruct (rn =? 2); [destruct (k =? n)|]; unfold gameReducer in H; simpl in H.
  - unfold reduce_nextFrame in H. simpl in H. inv_bind H. inv_bind H. inv_bind H.
    injection H as <-. by apply (update_frame_frame_at_ne _ _ _ _ _ _ Ha1).
  - unfold reduce_nextPlayer, truthy in H. simpl in H.
    destruct (Z.eqb_spec k 0); [lia|]. inv_bind H. by injection H as <-.
  - unfold reduce_nextRoll in H. simpl in H. by apply (update_frame_frame_at_ne _ _ _ _ _ _ H).
Qed.

Section RollClick.
Context (g : Game) (r : Q).
Hypothesis Hwf : wf g.
Hypothesis Hne : g.(players) ≠ [].
Hypothesis H9 : g.(currentFrameNumber) ≤ 9.

Let n := Z.of_nat (length g.(players)).

(** One click on Roll before frame 10 in a game with players. *)
Lemma roll_click :
  ∃ k p cf g',
    g.(currentPlayer).(playerNumber) = Some k ∧ g.(players) .!! (k - 1) = Some p ∧
    p.(frames) .!! (g.(currentFrameNumber) - 1) = Some cf ∧
    handle (λ game, handleRoll game r) g = Ok g' ∧ wf g' ∧ g'.(winner) = g.(winner) ∧
    length g'.(players) = length g.(players) ∧
    (∀ i, i ≠ k - 1 → g'.(players) .!! i = g.(players) .!! i) ∧
    g'.(currentFrameNumber) =
      (if (cf.(rollNumber) =? 2) && (k =? n) then g.(currentFrameNumber) + 1
       else g.(currentFrameNumber)) ∧
    (cf.(rollNumber) = 1 →
       g'.(currentPlayer) = g.(currentPlayer) ∧
       frame_at g' (k - 1) (g.(currentFrameNumber) - 1) =
         Some (set_rollNumber 2 (rolled cf (roll (rollMin cf) 10 r)))) ∧
    (cf.(rollNumber) = 2 → k = n →
       let f := rolled cf (roll (rollMin cf) 10 r) in
       frame_at g' (k - 1) (g.(currentFrameNumber) - 1) =
         Some (set_total (prev_total g k + f.(firstRoll) + f.(secondRoll)) f)) ∧
    (cf.(rollNumber) = 2 → k = n → g'.(currentPlayer) = g.(currentPlayer)) ∧
    g'.(currentPlayer).(playerNumber) =
      Some (if cf.(rollNumber) =? 2 then (if k =? n then k else if k =? n - 1 then 1 else k + 1)
            else k).
Proof.
  destruct (handleRoll_wf g r Hwf Hne H9) as (k & p & cf & Hk & Hp & Hcf & Hh).
  destruct (wf_current g Hwf Hne) as (k' & p' & Hk' & _ & _ & _ & _ & Hkr & Hlast).
  rewrite Hk in Hk'. injection Hk' as <-.
  destruct (rollAction_step g k p cf Hwf H9 ltac:(lia) Hp Hcf (roll (rollMin cf) 10 r))
    as (g1 & Hr1 & (Hwf1 & Hcp1 & Hcfn1 & Hlen1 & Hw1 & Hoth1) & Hf1 & Hearly).
  fold (rolled cf (roll (rollMin cf) 10 r)) in Hf1.
  destruct (frame_at_Some _ _ _ _ Hf1) as (p1 & Hp1 & Hcf1).
  rewrite <- Hcfn1 in Hcf1.
  assert (rollNumber cf = 1 ∨ rollNumber cf = 2) as Hrn
    by (by destruct (frame_ok_cf g k p cf Hwf Hp Hcf)).
  pose proof (rolled_rollNumber cf (roll (rollMin cf) 10 r)) as Hrr.
  exists k, p, cf.
  unfold handle. rewrite Hh, bind_Ok, !dispatch_all_cons.
  unfold reduce, game_reducer. rewrite Hr1, bind_Ok.
  destruct Hrn as [Hrn | Hrn]; rewrite Hrn; unfold turn_type; simpl; unfold reduce, game_reducer.
  - destruct (nextRoll_step g1 k 1 p1 (rolled cf (roll (rollMin cf) 10 r)) Hwf1 ltac:(lia) Hp1 Hcf1 ltac:(lia) eq_refl)
      as (g2 & Hr2 & (Hwf2 & Hcp2 & Hcfn2 & Hlen2 & Hw2 & Hoth2) & Hf2).
    rewrite Hr2, bind_Ok. eexists. split_and!; try done; try congruence; try lia.
    + intros i Hi. rewrite Hoth2, Hoth1 by done. done.
    + intros _. split; [congruence|]. by rewrite <- Hcfn1.
  - subst n. destruct (Z.eqb_spec k (Z.of_nat (length (players g)))) as [Hkn | Hkn]; simpl; unfold reduce, game_reducer.
    + destruct (nextFrame_step g1 k p1 (rolled cf (roll (rollMin cf) 10 r)) Hwf1 ltac:(lia) Hp1 Hcf1)
        as (g2 & prev & Hr2 & Hprev & Hwf2 & Hcfn2 & Hlen2 & Hw2 & Hcp2 & Hoth2 & Hf2).
      rewrite Hr2, bind_Ok. eexists. split_and!; try done; try congruence; try lia.
      * intros i Hi. rewrite Hoth2, Hoth1 by done. done.
      * intros _ _. cbv zeta. rewrite <- Hcfn1, Hf2.
        by rewrite (previousFrameTotal_frame_at g1 g k p1 Hp1 Hcfn1 Hearly prev Hprev).
    + destruct (nextPlayer_step g1 k Hwf1 ltac:(rewrite Hlen1; lia)
                  ltac:(rewrite Hlen1; lia) ltac:(rewrite Hlen1; lia))
        as (g2 & Hr2 & Hwf2 & Hps2 & Hcfn2 & Hw2 & Hcp2).
      rewrite Hr2, bind_Ok. eexists. split_and!; try done; try congruence; try lia.
      * intros i Hi. rewrite Hps2, Hoth1 by done. done.
      * rewrite Hcp2, Hlen1. by destruct (Z.eqb_spec k (Z.of_nat (length (players g)))).
Qed.
End RollClick.

(** The frame after the one being bowled, [frames[currentFrameNumber]],
    once a ball has knocked down 10 pins: [recordStrike] (first ball) or
    [recordSpare] (second ball) has written it, and the turn action has
    left it alone. *)
Definition marked (rn : Z) (nf : Frame) : Frame :=
  if rn =? 1 then set_rollNumber 2 (set_total 10 (set_firstRoll 10 nf))
  else set_rollNumber 2 (set_total 10 nf).

Lemma roll_click_mark g r k p cf nf g' :
  wf g → g.(currentFrameNumber) ≤ 9 →
  g.(currentPlayer).(playerNumber) = Some k → g.(players) .!! (k - 1) = Some p →
  p.(frames) .!! (g.(currentFrameNumber) - 1) = Some cf →
  p.(frames) .!! g.(currentFrameNumber) = Some nf →
  roll (rollMin cf) 10 r = 10 →
  handle (λ game, handleRoll game r) g = Ok g' →
  frame_at g' (k - 1) g.(currentFrameNumber) = Some (marked cf.(rollNumber) nf).
Proof.
  intros Hwf H9 Hk Hp Hcf Hnf Hpins Hs.
  assert (players g ≠ []) as Hne by (intros Hn; rewrite Hn, js_get_nil in Hp; done).
  destruct (handleRoll_wf g r Hwf Hne H9) as (k' & p' & cf' & Hk' & Hp' & Hcf' & Hh).
  rewrite Hk in Hk'. injection Hk' as <-. rewrite Hp in Hp'. injection Hp' as <-.
  rewrite Hcf in Hcf'. injection Hcf' as <-.
  destruct (wf_current g Hwf Hne) as (k' & _ & Hk' & _ & _ & _ & _ & Hkr & _).
  rewrite Hk in Hk'. injection Hk' as <-.
  assert (rollNumber cf = 1 ∨ rollNumber cf = 2) as Hrn
    by (by destruct (frame_ok_cf g k p cf Hwf Hp Hcf)).
  set (g1 := set_players (js_set (players g) (k - 1)
               (set_frames (js_set (frames p) (currentFrameNumber g) (marked cf.(rollNumber) nf)) p)) g).
  assert (gameReducer g (rollAction (Some k) cf.(rollNumber) 10 (-1) (-1)) = Ok g1) as Hr1.
  { unfold g1, rollAction, marked. destruct Hrn as [Hr | Hr]; rewrite Hr; simpl;
      unfold gameReducer, reduce_recordStrike, reduce_recordSpare, truthy; simpl.
    - by apply update_frame_Ok with (fr := nf).
    - destruct (Z.eqb_spec k 0); [lia|]. by apply update_frame_Ok with (fr := nf). }
  unfold handle in Hs. rewrite Hh, bind_Ok, dispatch_all_cons, Hpins in Hs.
  unfold reduce, game_reducer in Hs. rewrite Hr1, bind_Ok, dispatch_all_cons in Hs.
  inv_bind Hs. injection Hs as <-.
  rewrite (turn_action_keeps_frame g1 _ k _ a _ ltac:(lia) Ha) by (simpl; lia).
  pose proof Hwf as (_ & _ & _ & ? & _). apply frame_at_written_eq; [done | done | lia].
Qed.

(** ** Add player *)

Lemma player_ok_newPlayer n : player_ok (newPlayer n).
Proof. apply (bool_decide_unpack _). by vm_compute. Qed.

Lemma current_ok_app ps cp p :
  ps ≠ [] → current_ok ps cp → current_ok (ps ++ [p]) cp.
Proof.
  unfold current_ok. intros Hne.
  destruct ps as [|p0 ps]; [done|]. simpl.
  destruct (playerNumber cp); [|done].
  rewrite length_app. simpl. intros (Hk & Hl & Hok). split_and!; try done; lia.
Qed.

(** One click on Add player: a player numbered [n + 1] with ten fresh
    frames is appended, in any state of the game, and the first player
    becomes the current one. *)
Lemma add_click g :
  wf g →
  ∃ g', handle handleAddPlayer g = Ok g' ∧ wf g' ∧
    g'.(players) = g.(players) ++ [newPlayer (Z.of_nat (length g.(players)) + 1)] ∧
    g'.(currentFrameNumber) = g.(currentFrameNumber) ∧ g'.(winner) = g.(winner) ∧
    (g.(players) = [] → g'.(currentPlayer) = newPlayer 1) ∧
    (g.(players) ≠ [] → g'.(currentPlayer) = g.(currentPlayer)).
Proof.
  intros (Hps & Hnum & Hcur & Hcfn & Hw).
  assert (Forall player_ok (push_player g)) as Hps'
    by (apply Forall_app; split; [done | constructor; [apply player_ok_newPlayer | done]]).
  assert (numbered (push_player g)) as Hnum' by (by apply numbered_app).
  unfold handle, handleAddPlayer. simpl.
  destruct (decide (length (players g) = 0%nat)) as [Hlen | Hlen]; simpl;
    unfold reduce, game_reducer, gameReducer; simpl.
  - apply length_zero_iff_nil in Hlen.
    unfold reduce_addFirstPlayer, push_player. rewrite Hlen. simpl.
    eexists. split_and!; try done.
    unfold wf; simpl. split_and!; try done; try lia.
    + constructor; [apply player_ok_newPlayer | constructor].
    + apply player_ok_newPlayer.
  - unfold reduce_addPlayer.
    exists (set_players (push_player g) g). split_and!; try done.
    + unfold wf; simpl. split_and!; try done; try lia.
      apply current_ok_app; [by destruct (players g) | done].
    + intros ?. by destruct (players g).
Qed.
