(* ===== verification/App.v ===== *)
(** The application as a transition system: the two buttons of [App]
    ([src/src/App.tsx:327-329]) as events, one event run through
    [Runtime.handle] with [gameReducer], runs of events, and the reachable
    states from [gameInitialState]; then the theorems on reachable states,
    one Module per group: [Safety], [Liveness], [Scoring] and [Bonus]. *)

From Stdlib Require Import ZArith QArith Lia.
From stdpp Require Import base list strings.
From S2P Require Import Prelude Runtime Model Reducer Handlers State Invariant Click.

Open Scope Z_scope.

(** ** Events and runs *)

(** A click on "Add player", or on "Roll" with the value [r] that
    [Math.random()] returns during that click. *)
Inductive Event :=
| ClickAddPlayer
| ClickRoll (r : Q).

(** [Math.random()] returns a value of [[0, 1)]. *)
Definition valid_event (e : Event) : bool :=
  match e with
  | ClickAddPlayer => true
  | ClickRoll r => Qle_bool 0 r && negb (Qle_bool 1 r)
  end.

(** [<button onClick={handleAddPlayer}>] and [<button onClick={handleRoll}>]. *)
Definition app_step (g : Game) (e : Event) : outcome Game :=
  match e with
  | ClickAddPlayer => handle handleAddPlayer g
  | ClickRoll r => handle (λ game, handleRoll game r) g
  end.

Fixpoint run (g : Game) (es : list Event) : outcome Game :=
  match es with
  | [] => Ok g
  | e :: es => g' ← app_step g e; run g' es
  end.

Inductive reachable : Game → Prop :=
| reach_init : reachable gameInitialState
| reach_step g e g' :
    reachable g → valid_event e = true → app_step g e = Ok g' → reachable g'.

(** Take the state a concrete run ends in and check the claims about it by
    evaluation. *)
Ltac eexists_run :=
  match goal with
  | |- ∃ g, run ?g0 ?es = Ok g ∧ _ =>
      exists (match run g0 es with Ok g => g | _ => g0 end);
      split_and!; vm_compute; reflexivity
  end.

(** A run of valid events from a reachable state ends in a reachable state. *)
Lemma reachable_run g es g' :
  reachable g → forallb valid_event es = true → run g es = Ok g' → reachable g'.
Proof.
  revert g. induction es as [|e es IH]; intros g Hr Hv Hrun; simpl in *.
  - by injection Hrun as <-.
  - apply andb_true_iff in Hv as [He Hes].
    destruct (app_step g e) as [g1| |] eqn:Hs; try discriminate.
    apply (IH g1); [by apply (reach_step g e g1) | done | done].
Qed.

(** A state reached by a run of valid events from [gameInitialState] is
    reachable; the run is evaluated. *)
Ltac reach_run es :=
  apply (reachable_run gameInitialState es); [apply reach_init | reflexivity | reflexivity].


(** Safety of the application: the invariant of every reachable state,
    which clicks can throw, and what the invariant says about the winner,
    the turn order and frame 10. *)
Module Safety.

(** Once the frame cursor is past 9, [handleRoll] returns before reading
    anything (line 258). *)
Lemma roll_after_frame9 g r :
  9 < g.(currentFrameNumber) → app_step g (ClickRoll r) = Ok g.
Proof.
  intros H. apply handle_nil. unfold handleRoll.
  by destruct (Z.ltb_spec 9 (currentFrameNumber g)); [|lia].
Qed.

(** With no player, [game.players[playerNumber - 1]] is [undefined] and
    reading its [frames] throws. *)
Lemma roll_no_players g r :
  g.(players) = [] → g.(currentFrameNumber) ≤ 9 → app_step g (ClickRoll r) = TypeError.
Proof.
  intros Hps H9. unfold app_step, handle, handleRoll.
  destruct (Z.ltb_spec 9 (currentFrameNumber g)); [lia|].
  unfold js_at. by rewrite Hps, js_get_nil.
Qed.

(** Every click from a well-formed state either throws because there is
    no player yet, or keeps the state well formed. *)
Lemma step_wf g e g' :
  wf g → app_step g e = Ok g' → wf g'.
Proof.
  intros Hwf Hstep. destruct e as [|r].
  - destruct (add_click g Hwf) as (g'' & Hs & Hwf' & _). cbn [app_step] in Hstep. congruence.
  - destruct (Z.le_gt_cases (currentFrameNumber g) 9) as [H9 | H9].
    + destruct (decide (players g = [])) as [Hne | Hne].
      * by rewrite roll_no_players in Hstep.
      * destruct (roll_click g r Hwf Hne H9)
          as (k & p & cf & g'' & _ & _ & _ & Hs & Hwf' & _). cbn [app_step] in Hstep. congruence.
    + rewrite roll_after_frame9 in Hstep by lia. congruence.
Qed.

(** Rule induction on [reachable] with [step_wf]. *)
Lemma wf_of_reachable g : reachable g → wf g.
Proof.
  induction 1 as [|g e g' Hreach IH Hvalid Hstep]; [apply wf_init|].
  by eapply step_wf.
Qed.

(** C1: every state the application reaches from [gameInitialState] by
    clicks (with [Math.random()] in [[0, 1)]) is well formed: players are
    numbered 1..n in order, each has ten frames whose [rollNumber] is 1 or
    2 and whose [strike] and [spare] flags are unset, every [score] is 0,
    the frame cursor is in 1..10, the current player is a copy of a real
    player, and [winner] is the empty string. *)
Theorem reachable_wf g : reachable g → wf g.
Proof. apply wf_of_reachable. Qed.

Lemma reachable_wf_witness :
  reachable (set_players [newPlayer 1] (set_currentPlayer (newPlayer 1) gameInitialState)) ∧
  wf (set_players [newPlayer 1] (set_currentPlayer (newPlayer 1) gameInitialState)).
Proof.
  assert (reachable (set_players [newPlayer 1] (set_currentPlayer (newPlayer 1) gameInitialState)))
    as Hr by (apply (reach_step gameInitialState ClickAddPlayer); [apply reach_init | done | reflexivity]).
  split; [exact Hr | apply reachable_wf; exact Hr].
Defined.

(** C2: once a player has been added, no click on Roll throws: for every
    reachable state with at least one player and every value of
    [Math.random()], [handleRoll] and the reducer calls it dispatches
    succeed. *)
Theorem roll_never_throws g r :
  reachable g → g.(players) ≠ [] → ∃ g', app_step g (ClickRoll r) = Ok g'.
Proof.
  intros Hreach Hne. pose proof (wf_of_reachable g Hreach) as Hwf.
  destruct (Z.le_gt_cases (currentFrameNumber g) 9) as [H9 | H9].
  - destruct (roll_click g r Hwf Hne H9) as (k & p & cf & g' & _ & _ & _ & Hs & _). eauto.
  - exists g. apply roll_after_frame9. lia.
Qed.

Lemma roll_never_throws_witness :
  reachable (set_players [newPlayer 1] (set_currentPlayer (newPlayer 1) gameInitialState)) ∧
  ∃ g', app_step (set_players [newPlayer 1] (set_currentPlayer (newPlayer 1) gameInitialState))
          (ClickRoll (1 # 2)) = Ok g'.
Proof.
  assert (reachable (set_players [newPlayer 1] (set_currentPlayer (newPlayer 1) gameInitialState)))
    as Hr by (apply (reach_step gameInitialState ClickAddPlayer); [apply reach_init | done | reflexivity]).
  split; [exact Hr|].
  apply roll_never_throws; [exact Hr | discriminate].
Defined.

(** C3: pressing Roll before any player has been added crashes the
    application: [handleRoll] reads [game.players[-1].frames] and throws a
    [TypeError] (the spec asks for an [InvalidOperation] error value). *)
Theorem roll_before_players_throws g r :
  g.(players) = [] → g.(currentFrameNumber) ≤ 9 → app_step g (ClickRoll r) = TypeError.
Proof. apply roll_no_players. Qed.

Lemma roll_before_players_throws_witness :
  players gameInitialState = [] ∧ currentFrameNumber gameInitialState ≤ 9 ∧
  app_step gameInitialState (ClickRoll 0) = TypeError.
Proof.
  split_and!; [reflexivity | simpl; lia |].
  apply roll_before_players_throws; [reflexivity | simpl; lia].
Defined.

(** C4: frame 10 is never bowled: once [currentFrameNumber] has reached
    10, a click on Roll leaves the whole state unchanged. *)
Theorem frame10_roll_noop g r :
  g.(currentFrameNumber) = 10 → app_step g (ClickRoll r) = Ok g.
Proof. intros H. apply roll_after_frame9. lia. Qed.

Lemma frame10_roll_noop_witness :
  currentFrameNumber (set_currentFrameNumber 10 gameInitialState) = 10 ∧
  app_step (set_currentFrameNumber 10 gameInitialState) (ClickRoll (1 # 3)) =
    Ok (set_currentFrameNumber 10 gameInitialState).
Proof. split; [reflexivity | apply frame10_roll_noop; reflexivity]. Defined.

(** C5: with two players or more, the last player is never the current
    player: [nextPlayer] compares the 1-based [playerNumber] with
    [players.length - 1] and wraps to the first player one turn early. *)
Theorem last_player_never_current g :
  reachable g → (2 ≤ length g.(players))%nat →
  g.(currentPlayer).(playerNumber) ≠ Some (Z.of_nat (length g.(players))).
Proof.
  intros Hreach H2. pose proof (wf_of_reachable g Hreach) as Hwf.
  destruct (wf_current g Hwf) as (k & p & Hk & _ & _ & _ & _ & Hkr & Hlast);
    [by destruct (players g) as [|? []]; simpl in H2; [lia | lia |] |].
  rewrite Hk. intros [= ->]. lia.
Qed.

Lemma last_player_never_current_witness :
  let g := set_players [newPlayer 1; newPlayer 2]
             (set_currentPlayer (newPlayer 1) gameInitialState) in
  reachable g ∧ (2 ≤ length g.(players))%nat ∧
  g.(currentPlayer).(playerNumber) ≠ Some (Z.of_nat (length g.(players))).
Proof.
  cbv zeta.
  assert (reachable (set_players [newPlayer 1; newPlayer 2]
            (set_currentPlayer (newPlayer 1) gameInitialState))) as Hr.
  { apply (reach_step (set_players [newPlayer 1] (set_currentPlayer (newPlayer 1) gameInitialState))
      ClickAddPlayer); [|done|reflexivity].
    apply (reach_step gameInitialState ClickAddPlayer); [apply reach_init | done | reflexivity]. }
  split_and!; [exact Hr | simpl; lia | apply last_player_never_current; [exact Hr | simpl; lia]].
Defined.

(** C16: players can join at any time: in every reachable state, also
    after frame 1 has been bowled, a click on Add player appends a player
    numbered [n + 1] with ten fresh frames and leaves the frame cursor
    where it was (the spec forbids joining after frame 1 starts). *)
Theorem add_player_any_time g :
  reachable g →
  ∃ g', app_step g ClickAddPlayer = Ok g' ∧
    g'.(players) = g.(players) ++ [newPlayer (Z.of_nat (length g.(players)) + 1)] ∧
    g'.(currentFrameNumber) = g.(currentFrameNumber).
Proof.
  intros Hreach.
  destruct (add_click g (wf_of_reachable g Hreach)) as (g' & Hs & _ & Hps & Hc & _). eauto.
Qed.

Lemma add_player_any_time_witness :
  ∃ g, run gameInitialState [ClickAddPlayer; ClickRoll (1 # 2); ClickRoll (1 # 2)] = Ok g ∧
    reachable g ∧ g.(currentFrameNumber) = 2 ∧
    ∃ g', app_step g ClickAddPlayer = Ok g' ∧
      g'.(players) = g.(players) ++ [newPlayer (Z.of_nat (length g.(players)) + 1)] ∧
      g'.(currentFrameNumber) = g.(currentFrameNumber).
Proof.
  eexists. split; [reflexivity|].
  assert (reachable (match run gameInitialState [ClickAddPlayer; ClickRoll (1 # 2); ClickRoll (1 # 2)] with
                     | Ok g => g | _ => gameInitialState end)) as Hr.
  by reach_run [ClickAddPlayer; ClickRoll (1 # 2); ClickRoll (1 # 2)].
  simpl in Hr. split_and!; [exact Hr | reflexivity | apply add_player_any_time; exact Hr].
Defined.

End Safety.

(** Progress of a game under sequences of Roll clicks: a one-player game
    reaches frame 10 within 18 rolls (and then ignores every roll), while a
    game of two players or more never leaves its frame and never lets the
    last player bowl. *)
Module Liveness.
Import Safety.

(** [rollNumber] of the frame player [i] (from 0) is bowling. *)
Definition current_roll (g : Game) (i : Z) : Z :=
  default 1 (rollNumber <$> frame_at g i (g.(currentFrameNumber) - 1)).

(** Rolls left to a single player: two per frame from the cursor to frame
    9, less one when the current frame is at its second roll. *)
Definition rolls_left (g : Game) : nat :=
  if g.(currentFrameNumber) <=? 9 then
    Z.to_nat (2 * (10 - g.(currentFrameNumber)) - (current_roll g 0 - 1))
  else 0.

Lemma run_rolls_cons g r rs :
  run g (ClickRoll <$> r :: rs) = (g' ← app_step g (ClickRoll r); run g' (ClickRoll <$> rs)).
Proof. reflexivity. Qed.

Lemma frame_ok_at g i j :
  wf g → (0 ≤ i < Z.of_nat (length g.(players))) → 0 ≤ j < 10 →
  ∃ f, frame_at g i j = Some f ∧ frame_ok f.
Proof.
  intros (Hps & _) Hi Hj.
  destruct (js_get_in_range g.(players) i Hi) as [p Hp].
  destruct (player_ok_frame p j) as (f & Hf & Hok); [by eapply js_get_Forall | done |].
  exists f. by rewrite (frame_at_lookup _ _ _ p Hp).
Qed.

(** The [rollNumber] of a frame of a well-formed state is 1 or 2. *)
Lemma current_roll_bounds g : wf g → 1 ≤ current_roll g 0 ≤ 2.
Proof.
  intros Hwf. pose proof Hwf as (_ & _ & _ & Hc & _).
  unfold current_roll. destruct (frame_at g 0 _) as [f|] eqn:Hf; simpl; [|lia].
  destruct (frame_at_Some _ _ _ _ Hf) as (p & Hp & _).
  pose proof (js_get_Some_range _ _ _ Hp) as Hr.
  destruct (frame_ok_at g 0 (currentFrameNumber g - 1) Hwf ltac:(lia) ltac:(lia))
    as (f' & Hf' & Hrn & _).
  rewrite Hf in Hf'. injection Hf' as ->. lia.
Qed.

(** ** One player *)

Lemma single_roll_step g r :
  wf g → length g.(players) = 1%nat → g.(currentFrameNumber) ≤ 9 →
  ∃ g', app_step g (ClickRoll r) = Ok g' ∧ wf g' ∧ length g'.(players) = 1%nat ∧
    (rolls_left g' < rolls_left g)%nat.
Proof.
  intros Hwf Hlen H9.
  assert (players g ≠ []) as Hne by (intros Hn; rewrite Hn in Hlen; done).
  destruct (roll_click g r Hwf Hne H9)
    as (k & p & cf & g' & Hk & Hp & Hcf & Hs & Hwf' & _ & Hlen' & _ & Hcfn' & H1 & H2 & _).
  destruct (wf_current g Hwf Hne) as (k' & _ & Hk' & _ & _ & _ & _ & Hkr & _).
  rewrite Hk in Hk'. injection Hk' as <-. rewrite Hlen in Hkr, Hcfn', H2. simpl in *.
  assert (k = 1) as -> by lia.
  pose proof Hwf as (_ & _ & _ & Hc & _). pose proof Hwf' as (_ & _ & _ & Hc' & _).
  destruct (frame_ok_cf g 1 p cf Hwf Hp Hcf) as (Hrn & _).
  assert (current_roll g 0 = rollNumber cf) as Hcur.
  { unfold current_roll. by rewrite (frame_at_lookup _ _ _ p Hp), Hcf. }
  exists g'. split_and!; [done | done | by rewrite Hlen' |].
  unfold rolls_left. rewrite Hcur.
  destruct Hrn as [Hrn | Hrn]; rewrite Hrn in Hcfn' |- *; simpl in Hcfn'.
  - destruct (H1 Hrn) as (_ & Hf'). replace (1 - 1) with 0 in Hf' by lia. unfold current_roll. rewrite Hcfn', Hf'.
    destruct (Z.leb_spec (currentFrameNumber g) 9); [simpl; lia | lia].
  - destruct (Z.leb_spec (currentFrameNumber g') 9); [|destruct (Z.leb_spec (currentFrameNumber g) 9); lia].
    destruct (frame_ok_at g' 0 (currentFrameNumber g' - 1)) as (f & Hf & Hfr & _);
      [done | rewrite Hlen'; lia | lia |].
    unfold current_roll. rewrite Hf. simpl.
    destruct (Z.leb_spec (currentFrameNumber g) 9); lia.
Qed.

Lemma rolls_left_zero g : wf g → rolls_left g = 0%nat → g.(currentFrameNumber) = 10.
Proof.
  intros Hwf Hz. pose proof Hwf as (_ & _ & _ & Hc & _). unfold rolls_left in Hz.
  destruct (Z.leb_spec (currentFrameNumber g) 9); [|lia].
  assert (current_roll g 0 ≤ 2); [|lia].
  by apply current_roll_bounds.
Qed.

Lemma rolls_left_le g : wf g → (rolls_left g ≤ 18)%nat.
Proof.
  intros Hwf. pose proof Hwf as (_ & _ & _ & Hc & _). unfold rolls_left.
  destruct (Z.leb_spec (currentFrameNumber g) 9); [|lia].
  pose proof (current_roll_bounds g Hwf). lia.
Qed.

Lemma rolls_reach_frame10 rs g :
  wf g → length g.(players) = 1%nat → (rolls_left g ≤ length rs)%nat →
  ∃ g', run g (ClickRoll <$> rs) = Ok g' ∧ g'.(currentFrameNumber) = 10.
Proof.
  revert g. induction rs as [|r rs IH]; intros g Hwf Hlen Hm.
  - exists g. split; [done|]. apply rolls_left_zero; [done | simpl in Hm; lia].
  - rewrite run_rolls_cons.
    destruct (Z.le_gt_cases (currentFrameNumber g) 9) as [H9 | H9].
    + destruct (single_roll_step g r Hwf Hlen H9) as (g1 & Hs & Hwf1 & Hlen1 & Hlt).
      rewrite Hs. apply IH; [done | done | simpl in Hm; lia].
    + rewrite roll_after_frame9 by done. apply IH; [done | done |].
      unfold rolls_left. destruct (Z.leb_spec (currentFrameNumber g) 9); [lia|]. simpl; lia.
Qed.

(** C6: a one-player game terminates: from any reachable state with one
    player, every sequence of at least 18 rolls succeeds and leaves the frame
    cursor at 10, after which rolls change nothing (C4). *)
Theorem single_player_finishes g rs :
  reachable g → length g.(players) = 1%nat → (18 ≤ length rs)%nat →
  ∃ g', run g (ClickRoll <$> rs) = Ok g' ∧ g'.(currentFrameNumber) = 10.
Proof.
  intros Hreach Hlen Hrs. pose proof (wf_of_reachable g Hreach) as Hwf.
  apply rolls_reach_frame10; [done | done |].
  pose proof (rolls_left_le g Hwf). lia.
Qed.

Lemma single_player_finishes_witness :
  let g := set_players [newPlayer 1] (set_currentPlayer (newPlayer 1) gameInitialState) in
  reachable g ∧ length g.(players) = 1%nat ∧ (18 ≤ length (replicate 18 (1 # 2)))%nat ∧
  ∃ g', run g (ClickRoll <$> replicate 18 (1 # 2)) = Ok g' ∧ g'.(currentFrameNumber) = 10.
Proof.
  cbv zeta.
  assert (reachable (set_players [newPlayer 1] (set_currentPlayer (newPlayer 1) gameInitialState)))
    as Hr by (apply (reach_step gameInitialState ClickAddPlayer); [apply reach_init | done | reflexivity]).
  split_and!; [exact Hr | reflexivity | simpl; lia |].
  apply single_player_finishes; [exact Hr | reflexivity | simpl; lia].
Defined.

(** ** Two players or more *)

Lemma multi_roll_step g r g' :
  wf g → (2 ≤ length g.(players))%nat → app_step g (ClickRoll r) = Ok g' →
  wf g' ∧ g'.(currentFrameNumber) = g.(currentFrameNumber) ∧
  length g'.(players) = length g.(players) ∧
  g'.(players) .!! (Z.of_nat (length g.(players)) - 1) =
    g.(players) .!! (Z.of_nat (length g.(players)) - 1).
Proof.
  intros Hwf H2 Hs.
  destruct (Z.le_gt_cases (currentFrameNumber g) 9) as [H9 | H9].
  - assert (players g ≠ []) as Hne by (intros Hn; rewrite Hn in H2; simpl in H2; lia).
    destruct (roll_click g r Hwf Hne H9)
      as (k & p & cf & g'' & Hk & _ & _ & Hs' & Hwf' & _ & Hlen' & Hoth & Hcfn' & _).
    cbn [app_step] in Hs. rewrite Hs in Hs'. injection Hs' as <-.
    destruct (wf_current g Hwf Hne) as (k' & _ & Hk' & _ & _ & _ & _ & Hkr & Hlast).
    rewrite Hk in Hk'. injection Hk' as <-.
    destruct (Z.eqb_spec k (Z.of_nat (length (players g)))); [lia|].
    rewrite andb_false_r in Hcfn'. split_and!; try done. apply Hoth. lia.
  - rewrite roll_after_frame9 in Hs by lia. injection Hs as <-. done.
Qed.

(** C7: with two players or more, rolling never ends a frame: after any
    sequence of rolls from a reachable state, the frame cursor has not
    moved and the last player's record (frames included) is unchanged. *)
Theorem multi_player_stuck g rs g' :
  reachable g → (2 ≤ length g.(players))%nat → run g (ClickRoll <$> rs) = Ok g' →
  g'.(currentFrameNumber) = g.(currentFrameNumber) ∧
  g'.(players) .!! (Z.of_nat (length g.(players)) - 1) =
    g.(players) .!! (Z.of_nat (length g.(players)) - 1).
Proof.
  intros Hreach H2. pose proof (wf_of_reachable g Hreach) as Hwf. clear Hreach.
  revert g Hwf H2. induction rs as [|r rs IH]; intros g Hwf H2 Hrun.
  - by injection Hrun as <-.
  - rewrite run_rolls_cons in Hrun. inv_bind Hrun.
    destruct (multi_roll_step g r a Hwf H2 Ha) as (Hwf1 & Hc1 & Hl1 & Hlast1).
    destruct (IH a Hwf1 ltac:(lia) Hrun) as (Hc & Hlast).
    rewrite Hl1 in Hlast. split; congruence.
Qed.

Lemma multi_player_stuck_witness :
  let g := set_players [newPlayer 1; newPlayer 2]
             (set_currentPlayer (newPlayer 1) gameInitialState) in
  reachable g ∧ (2 ≤ length g.(players))%nat ∧
  ∃ g', run g (ClickRoll <$> [1 # 3; 1 # 2; 9 # 10; 0 # 1]) = Ok g' ∧
    g'.(currentFrameNumber) = g.(currentFrameNumber) ∧
    g'.(players) .!! (Z.of_nat (length g.(players)) - 1) =
      g.(players) .!! (Z.of_nat (length g.(players)) - 1).
Proof.
  cbv zeta.
  assert (reachable (set_players [newPlayer 1; newPlayer 2]
            (set_currentPlayer (newPlayer 1) gameInitialState))) as Hr.
  { apply (reach_step (set_players [newPlayer 1] (set_currentPlayer (newPlayer 1) gameInitialState))
      ClickAddPlayer); [|done|reflexivity].
    apply (reach_step gameInitialState ClickAddPlayer); [apply reach_init | done | reflexivity]. }
  split_and!; [exact Hr | simpl; lia |].
  eexists. split; [reflexivity|].
  eapply (multi_player_stuck _ [1 # 3; 1 # 2; 9 # 10; 0 # 1]); [exact Hr | simpl; lia | reflexivity].
Defined.

End Liveness.

(** What the program writes into the score sheet: the pin draw, the frame
    totals, strikes and spares, the bonus paths and the winner, each set
    against what the spec asks for. *)
Module Scoring.
Import Safety.



(** ** Frame totals *)

(** The second ball of an open frame in a one-player game. *)
Lemma open_frame_step g r p cf :
  reachable g → length g.(players) = 1%nat → g.(currentFrameNumber) ≤ 9 →
  g.(players) .!! 0 = Some p → p.(frames) .!! (g.(currentFrameNumber) - 1) = Some cf →
  cf.(rollNumber) = 2 → roll (rollMin cf) 10 r ≠ 10 →
  ∃ g', app_step g (ClickRoll r) = Ok g' ∧
    ∃ f, frame_at g' 0 (g.(currentFrameNumber) - 1) = Some f ∧
      f.(secondRoll) = cf.(firstRoll) + roll (rollMin cf) 10 r ∧
      f.(total) = prev_total g 1 + 2 * cf.(firstRoll) + roll (rollMin cf) 10 r.
Proof.
  intros Hreach Hlen H9 Hp Hcf Hrn Hpins.
  pose proof (wf_of_reachable g Hreach) as Hwf.
  assert (players g ≠ []) as Hne by (intros Hn; rewrite Hn in Hlen; done).
  destruct (roll_click g r Hwf Hne H9)
    as (k & p' & cf' & g' & Hk & Hp' & Hcf' & Hs & _ & _ & _ & _ & _ & _ & H2 & _).
  destruct (wf_current g Hwf Hne) as (k' & _ & Hk' & _ & _ & _ & _ & Hkr & _).
  rewrite Hk in Hk'. injection Hk' as <-. rewrite Hlen in Hkr, H2. simpl in Hkr, H2.
  assert (k = 1) as -> by lia. change (1 - 1) with 0 in *.
  rewrite Hp in Hp'. injection Hp' as <-. rewrite Hcf in Hcf'. injection Hcf' as <-.
  exists g'. split; [done|].
  specialize (H2 Hrn eq_refl). cbv zeta in H2. simpl in H2.
  unfold rolled, score_frame in H2. rewrite Hrn in H2. simpl in H2.
  destruct (Z.eqb_spec (roll (rollMin cf) 10 r) 10); [done|].
  eexists. split; [exact H2|]. simpl. split; lia.
Qed.

(** C11: an open frame counts its first ball twice.  In a one-player game,
    when the second ball of the current frame knocks down [pins <> 10],
    [addToScore] stores [secondRoll = firstRoll + pins] and [nextFrame] then
    sets [total = previous total + firstRoll + secondRoll], that is
    [previous total + 2 * firstRoll + pins]. *)
Theorem open_frame_double_count g r p cf :
  reachable g → length g.(players) = 1%nat → g.(currentFrameNumber) ≤ 9 →
  g.(players) .!! 0 = Some p → p.(frames) .!! (g.(currentFrameNumber) - 1) = Some cf →
  cf.(rollNumber) = 2 → roll (rollMin cf) 10 r ≠ 10 →
  ∃ g', app_step g (ClickRoll r) = Ok g' ∧
    ∃ f, frame_at g' 0 (g.(currentFrameNumber) - 1) = Some f ∧
      f.(secondRoll) = cf.(firstRoll) + roll (rollMin cf) 10 r ∧
      f.(total) = prev_total g 1 + 2 * cf.(firstRoll) + roll (rollMin cf) 10 r.
Proof. apply open_frame_step. Qed.

Lemma open_frame_double_count_witness :
  ∃ g, run gameInitialState [ClickAddPlayer; ClickRoll (1 # 2)] = Ok g ∧
  ∃ p cf, reachable g ∧ length g.(players) = 1%nat ∧ g.(currentFrameNumber) ≤ 9 ∧
    g.(players) .!! 0 = Some p ∧ p.(frames) .!! (g.(currentFrameNumber) - 1) = Some cf ∧
    cf.(rollNumber) = 2 ∧ roll (rollMin cf) 10 0 ≠ 10 ∧
    ∃ g', app_step g (ClickRoll 0) = Ok g' ∧
      ∃ f, frame_at g' 0 (g.(currentFrameNumber) - 1) = Some f ∧
        f.(secondRoll) = cf.(firstRoll) + roll (rollMin cf) 10 0 ∧
        f.(total) = prev_total g 1 + 2 * cf.(firstRoll) + roll (rollMin cf) 10 0.
Proof.
  eexists. split; [reflexivity|]. do 2 eexists.
  assert (reachable (match run gameInitialState [ClickAddPlayer; ClickRoll (1 # 2)] with
                     | Ok g => g | _ => gameInitialState end)) as Hr.
  by reach_run [ClickAddPlayer; ClickRoll (1 # 2)].
  simpl in Hr. split_and!; try reflexivity; try (vm_compute; discriminate); [exact Hr|].
  eapply (open_frame_double_count _ 0); try reflexivity; try (vm_compute; discriminate); exact Hr.
Defined.

(** C17: a frame can record more than ten pins: in a one-player game,
    whenever the first ball of the current frame has knocked down
    [total] pins with [0 < total <= 9], some value of [Math.random()] makes
    the second ball knock down 9 pins and the frame then records
    [secondRoll = firstRoll + 9], which exceeds 10 as soon as
    [firstRoll >= 2] (the spec: at most 10 pins in a non-strike frame). *)
Theorem frame_pins_exceed_ten g p cf :
  reachable g → length g.(players) = 1%nat → g.(currentFrameNumber) ≤ 9 →
  g.(players) .!! 0 = Some p → p.(frames) .!! (g.(currentFrameNumber) - 1) = Some cf →
  cf.(rollNumber) = 2 → 0 < cf.(total) ≤ 9 →
  ∃ r, (0 <= r)%Q ∧ (r < 1)%Q ∧ ∃ g', app_step g (ClickRoll r) = Ok g' ∧
    ∃ f, frame_at g' 0 (g.(currentFrameNumber) - 1) = Some f ∧
      f.(secondRoll) = cf.(firstRoll) + 9.
Proof.
  intros Hreach Hlen H9 Hp Hcf Hrn Ht.
  assert (rollMin cf ≤ 9 ≤ 10) as Hm
    by (unfold rollMin, getMinOfRange; destruct (Z.ltb_spec 0 (total cf)); lia).
  destruct (draw_for_valid (rollMin cf) 10 9 Hm) as [Hr0 Hr1].
  pose proof (roll_draw_for (rollMin cf) 10 9 Hm) as Hroll.
  exists (draw_for (rollMin cf) 10 9). split_and!; [done | done |].
  destruct (open_frame_step g (draw_for (rollMin cf) 10 9) p cf Hreach Hlen H9 Hp Hcf Hrn
              ltac:(lia)) as (g' & Hs & f & Hf & Hsec & _).
  exists g'. split; [done|]. exists f. split; [done | lia].
Qed.

Lemma frame_pins_exceed_ten_witness :
  ∃ g, run gameInitialState [ClickAddPlayer; ClickRoll (1 # 2)] = Ok g ∧
  ∃ p cf, reachable g ∧ length g.(players) = 1%nat ∧ g.(currentFrameNumber) ≤ 9 ∧
    g.(players) .!! 0 = Some p ∧ p.(frames) .!! (g.(currentFrameNumber) - 1) = Some cf ∧
    cf.(rollNumber) = 2 ∧ 0 < cf.(total) ≤ 9 ∧
    ∃ r, (0 <= r)%Q ∧ (r < 1)%Q ∧ ∃ g', app_step g (ClickRoll r) = Ok g' ∧
      ∃ f, frame_at g' 0 (g.(currentFrameNumber) - 1) = Some f ∧
        f.(secondRoll) = cf.(firstRoll) + 9.
Proof.
  eexists. split; [reflexivity|]. do 2 eexists.
  assert (reachable (match run gameInitialState [ClickAddPlayer; ClickRoll (1 # 2)] with
                     | Ok g => g | _ => gameInitialState end)) as Hr.
  by reach_run [ClickAddPlayer; ClickRoll (1 # 2)].
  simpl in Hr. split_and!; try reflexivity; try (vm_compute; discriminate); [exact Hr|].
  eapply frame_pins_exceed_ten; try reflexivity; try (vm_compute; discriminate);
    try (split; [reflexivity | vm_compute; discriminate]); exact Hr.
Defined.

(** C12: a strike is not written into the frame being bowled: when the
    first ball of the current frame knocks down 10 pins, [recordStrike]
    writes [firstRoll = 10], [total = 10] and [rollNumber = 2] into
    [frames[currentFrameNumber]], the next frame, and the current frame only
    moves on to its second ball. *)
Theorem strike_goes_to_next_frame g r k p cf nf :
  reachable g → g.(currentFrameNumber) ≤ 9 →
  g.(currentPlayer).(playerNumber) = Some k → g.(players) .!! (k - 1) = Some p →
  p.(frames) .!! (g.(currentFrameNumber) - 1) = Some cf →
  p.(frames) .!! g.(currentFrameNumber) = Some nf →
  cf.(rollNumber) = 1 → roll (rollMin cf) 10 r = 10 →
  ∃ g', app_step g (ClickRoll r) = Ok g' ∧
    frame_at g' (k - 1) (g.(currentFrameNumber) - 1) = Some (set_rollNumber 2 cf) ∧
    frame_at g' (k - 1) g.(currentFrameNumber) =
      Some (set_rollNumber 2 (set_total 10 (set_firstRoll 10 nf))).
Proof.
  intros Hreach H9 Hk Hp Hcf Hnf Hrn Hpins.
  pose proof (wf_of_reachable g Hreach) as Hwf.
  assert (players g ≠ []) as Hne by (intros Hn; rewrite Hn, js_get_nil in Hp; done).
  destruct (roll_click g r Hwf Hne H9)
    as (k' & p' & cf' & g' & Hk' & Hp' & Hcf' & Hs & _ & _ & _ & _ & _ & H1 & _).
  rewrite Hk in Hk'. injection Hk' as <-. rewrite Hp in Hp'. injection Hp' as <-.
  rewrite Hcf in Hcf'. injection Hcf' as <-.
  exists g'. split; [done|]. split.
  - destruct (H1 Hrn) as [_ ->]. unfold rolled. by rewrite Hpins.
  - rewrite (roll_click_mark g r k p cf nf g' Hwf H9 Hk Hp Hcf Hnf Hpins Hs).
    unfold marked. by rewrite Hrn.
Qed.

Lemma strike_goes_to_next_frame_witness :
  let g := set_players [newPlayer 1] (set_currentPlayer (newPlayer 1) gameInitialState) in
  reachable g ∧ g.(currentFrameNumber) ≤ 9 ∧
  g.(currentPlayer).(playerNumber) = Some 1 ∧ g.(players) .!! (1 - 1) = Some (newPlayer 1) ∧
  (newPlayer 1).(frames) .!! (g.(currentFrameNumber) - 1) = Some frameInitialState ∧
  (newPlayer 1).(frames) .!! g.(currentFrameNumber) = Some frameInitialState ∧
  frameInitialState.(rollNumber) = 1 ∧ roll (rollMin frameInitialState) 10 (10 # 11) = 10 ∧
  ∃ g', app_step g (ClickRoll (10 # 11)) = Ok g' ∧
    frame_at g' (1 - 1) (g.(currentFrameNumber) - 1) = Some (set_rollNumber 2 frameInitialState) ∧
    frame_at g' (1 - 1) g.(currentFrameNumber) =
      Some (set_rollNumber 2 (set_total 10 (set_firstRoll 10 frameInitialState))).
Proof.
  cbv zeta.
  assert (reachable (set_players [newPlayer 1] (set_currentPlayer (newPlayer 1) gameInitialState)))
    as Hr by (apply (reach_step gameInitialState ClickAddPlayer); [apply reach_init | done | reflexivity]).
  split_and!; try reflexivity; [exact Hr | simpl; lia |].
  apply (strike_goes_to_next_frame _ (10 # 11) 1 (newPlayer 1) frameInitialState frameInitialState); try reflexivity; [exact Hr | simpl; lia].
Defined.

(** C24: a spare is not written into the frame being bowled either: when
    the second ball of the current frame knocks down 10 pins,
    [recordSpare] writes [total = 10] and [rollNumber = 2] into
    [frames[currentFrameNumber]], the next frame of the player. *)
Theorem spare_goes_to_next_frame g r k p cf nf :
  reachable g → g.(currentFrameNumber) ≤ 9 →
  g.(currentPlayer).(playerNumber) = Some k → g.(players) .!! (k - 1) = Some p →
  p.(frames) .!! (g.(currentFrameNumber) - 1) = Some cf →
  p.(frames) .!! g.(currentFrameNumber) = Some nf →
  cf.(rollNumber) = 2 → roll (rollMin cf) 10 r = 10 →
  ∃ g', app_step g (ClickRoll r) = Ok g' ∧
    frame_at g' (k - 1) g.(currentFrameNumber) = Some (set_rollNumber 2 (set_total 10 nf)).
Proof.
  intros Hreach H9 Hk Hp Hcf Hnf Hrn Hpins.
  pose proof (wf_of_reachable g Hreach) as Hwf.
  assert (players g ≠ []) as Hne by (intros Hn; rewrite Hn, js_get_nil in Hp; done).
  destruct (roll_click g r Hwf Hne H9) as (k' & p' & cf' & g' & Hk' & Hp' & Hcf' & Hs & _).
  rewrite Hk in Hk'. injection Hk' as <-. rewrite Hp in Hp'. injection Hp' as <-.
  rewrite Hcf in Hcf'. injection Hcf' as <-.
  exists g'. split; [done|].
  rewrite (roll_click_mark g r k p cf nf g' Hwf H9 Hk Hp Hcf Hnf Hpins Hs).
  unfold marked. by rewrite Hrn.
Qed.

Lemma spare_goes_to_next_frame_witness :
  ∃ g, run gameInitialState [ClickAddPlayer; ClickRoll (1 # 2)] = Ok g ∧
  ∃ p cf nf, reachable g ∧ g.(currentFrameNumber) ≤ 9 ∧
    g.(currentPlayer).(playerNumber) = Some 1 ∧ g.(players) .!! (1 - 1) = Some p ∧
    p.(frames) .!! (g.(currentFrameNumber) - 1) = Some cf ∧
    p.(frames) .!! g.(currentFrameNumber) = Some nf ∧
    cf.(rollNumber) = 2 ∧ roll (rollMin cf) 10 (10 # 11) = 10 ∧
    ∃ g', app_step g (ClickRoll (10 # 11)) = Ok g' ∧
      frame_at g' (1 - 1) g.(currentFrameNumber) = Some (set_rollNumber 2 (set_total 10 nf)).
Proof.
  eexists. split; [reflexivity|]. do 3 eexists.
  assert (reachable (match run gameInitialState [ClickAddPlayer; ClickRoll (1 # 2)] with
                     | Ok g => g | _ => gameInitialState end)) as Hr.
  by reach_run [ClickAddPlayer; ClickRoll (1 # 2)].
  simpl in Hr. split_and!; try reflexivity; try (vm_compute; discriminate); [exact Hr|].
  eapply (spare_goes_to_next_frame _ (10 # 11) 1); try reflexivity; try (vm_compute; discriminate);
    exact Hr.
Defined.

End Scoring.

(** The strike and spare bonus paths of the reducer: [handleRoll] never
    dispatches them in a reachable state, and the [addToStrike] case, were
    it dispatched, credits the player after the current one. *)
Module Bonus.
Import Safety.

(** An action that is not one of the two bonus actions. *)
Definition not_bonus (a : GameAction) : Prop :=
  a.(Action.type) ≠ addToStrike ∧ a.(Action.type) ≠ addToSpare.

Lemma rollAction_not_bonus pn rn pins : not_bonus (rollAction pn rn pins (-1) (-1)).
Proof. unfold not_bonus, rollAction. repeat case_if; simpl; split; discriminate. Qed.

Lemma turn_type_not_bonus n k rn pn : not_bonus (mkAction (turn_type n k rn) None pn None None).
Proof. unfold not_bonus, turn_type. repeat case_if; simpl; split; discriminate. Qed.

(** [handleRoll] throws before dispatching anything when there is no player. *)
Lemma handleRoll_no_players g r :
  g.(players) = [] → g.(currentFrameNumber) ≤ 9 → handleRoll g r = TypeError.
Proof.
  intros Hps H9. unfold handleRoll.
  destruct (Z.ltb_spec 9 (currentFrameNumber g)); [lia|].
  unfold js_at. by rewrite Hps, js_get_nil.
Qed.

(** What [handleRoll] dispatches from a well-formed state: nothing, or a
    first action with [strikeIndex] and [spareIndex] at [-1] and a turn
    action, both for the current player [k] of [1..n]. *)
Lemma handleRoll_cases g r acts :
  wf g → handleRoll g r = Ok acts →
  acts = [] ∨ ∃ k rn pins, 1 ≤ k ≤ Z.of_nat (length g.(players)) ∧
    acts = [rollAction (Some k) rn pins (-1) (-1);
            mkAction (turn_type (Z.of_nat (length g.(players))) k rn) None (Some k) None None].
Proof.
  intros Hwf Hh.
  destruct (Z.le_gt_cases (currentFrameNumber g) 9) as [H9 | H9].
  - destruct (decide (players g = [])) as [Hps | Hne].
    + by rewrite handleRoll_no_players in Hh.
    + destruct (handleRoll_wf g r Hwf Hne H9) as (k & p & cf & Hk & _ & _ & Hh').
      destruct (wf_current g Hwf Hne) as (k' & _ & Hk' & _ & _ & _ & _ & Hkr & _).
      rewrite Hk in Hk'. injection Hk' as <-.
      rewrite Hh' in Hh. injection Hh as <-. right. eauto 10.
  - unfold handleRoll in Hh. destruct (Z.ltb_spec 9 (currentFrameNumber g)); [|lia].
    injection Hh as <-. by left.
Qed.

(** C13: bonuses are never credited: in every reachable state, the actions
    a click on Roll dispatches are never [addToStrike] nor [addToSpare],
    because [getPreviousStrikes] and [getPreviousSpares] only find frames
    whose [strike] or [spare] flag is set, and no reducer case sets one. *)
Theorem no_bonus_dispatched g r acts :
  reachable g → handleRoll g r = Ok acts → Forall not_bonus acts.
Proof.
  intros Hreach Hh.
  destruct (handleRoll_cases g r acts (wf_of_reachable g Hreach) Hh)
    as [-> | (k & rn & pins & _ & ->)]; [constructor|].
  constructor; [apply rollAction_not_bonus|].
  constructor; [apply turn_type_not_bonus | constructor].
Qed.

Lemma no_bonus_dispatched_witness :
  ∃ g, run gameInitialState [ClickAddPlayer; ClickRoll (1 # 2)] = Ok g ∧
  ∃ acts, reachable g ∧ handleRoll g (9 # 10) = Ok acts ∧ Forall not_bonus acts.
Proof.
  eexists. split; [reflexivity|]. eexists.
  assert (reachable (match run gameInitialState [ClickAddPlayer; ClickRoll (1 # 2)] with
                     | Ok g => g | _ => gameInitialState end)) as Hr.
  by reach_run [ClickAddPlayer; ClickRoll (1 # 2)].
  simpl in Hr. split_and!; [exact Hr | reflexivity |].
  eapply (no_bonus_dispatched _ (9 # 10)); [exact Hr | reflexivity].
Defined.

(** One click keeps the current player of a one-player game: Add player
    on an empty game assigns [players[0]], which is [newPlayer 1]; a Roll
    of the only player ends its turn with [nextFrame], which does not
    assign [currentPlayer]. *)
Lemma one_player_current_step g e g' :
  wf g → app_step g e = Ok g' → length g'.(players) = 1%nat →
  (length g.(players) = 1%nat → g.(currentPlayer) = newPlayer 1) →
  g'.(currentPlayer) = newPlayer 1.
Proof.
  intros Hwf Hstep Hlen' IH. destruct e as [|r].
  - destruct (add_click g Hwf) as (g'' & Hs & _ & Hps & _ & _ & Hfirst & _).
    cbn [app_step] in Hstep. rewrite Hs in Hstep. injection Hstep as <-.
    apply Hfirst. apply length_zero_iff_nil.
    rewrite Hps, length_app in Hlen'. simpl in Hlen'. lia.
  - destruct (Z.le_gt_cases (currentFrameNumber g) 9) as [H9 | H9].
    + destruct (decide (players g = [])) as [Hn | Hne]; [by rewrite roll_no_players in Hstep|].
      destruct (roll_click g r Hwf Hne H9)
        as (k & p & cf & g'' & Hk & Hp & Hcf & Hs & _ & _ & Hlen & _ & _ & H1 & _ & H2 & _).
      cbn [app_step] in Hstep. rewrite Hs in Hstep. injection Hstep as <-.
      rewrite Hlen in Hlen'. rewrite <- IH by done.
      destruct (wf_current g Hwf Hne) as (k' & p' & Hk' & _ & _ & _ & _ & Hkr & _).
      rewrite Hk in Hk'. injection Hk' as <-. rewrite Hlen' in Hkr.
      destruct (frame_ok_cf g k p cf Hwf Hp Hcf) as ([Hrn | Hrn] & _).
      * by apply H1.
      * apply H2; [done | rewrite Hlen'; simpl; lia].
    + rewrite roll_after_frame9 in Hstep by lia. injection Hstep as <-. by apply IH.
Qed.

(** C27: [currentPlayer] is never updated in a one-player game: in every
    reachable state with one player, whatever has been bowled, it is the
    copy [newPlayer 1] assigned by [addFirstPlayer], with ten initial
    frames, and [getPreviousStrikes] and [getPreviousSpares] read those
    frames instead of the ones [players[0]] holds. *)
Theorem stale_current_player g :
  reachable g → length g.(players) = 1%nat → g.(currentPlayer) = newPlayer 1.
Proof.
  induction 1 as [|g e g' Hreach IH Hvalid Hstep]; [done|]. intros Hlen.
  apply (one_player_current_step g e g'); [by apply wf_of_reachable | done | done | done].
Qed.

Lemma stale_current_player_witness :
  ∃ g, run gameInitialState [ClickAddPlayer; ClickRoll (1 # 2); ClickRoll (1 # 3); ClickRoll (10 # 11)] = Ok g ∧
    reachable g ∧ length g.(players) = 1%nat ∧ g.(currentPlayer) = newPlayer 1 ∧
    g.(players) ≠ [newPlayer 1].
Proof.
  eexists. split; [reflexivity|].
  assert (reachable (match run gameInitialState [ClickAddPlayer; ClickRoll (1 # 2); ClickRoll (1 # 3);
                                                 ClickRoll (10 # 11)] with
                     | Ok g => g | _ => gameInitialState end)) as Hr.
  by reach_run [ClickAddPlayer; ClickRoll (1 # 2); ClickRoll (1 # 3); ClickRoll (10 # 11)].
  vm_compute in Hr. split_and!; [exact Hr | reflexivity | | discriminate].
  apply stale_current_player; [exact Hr | reflexivity].
Defined.

End Bonus.

(** The types of the dispatched actions: every field a reducer case reads
    with a non-null assertion ([action.playerNumber!],
    [action.pinsDown!], [action.strikeIndex as number]) is present, and
    every player number cast with [as number] from
    [game.currentPlayer.playerNumber] is a number of [1..n]. *)

Module Typing.
Import Safety Bonus.

(** The fields that the case of [a.type] reads without a guard are
    present, and its player number, when there is one, is in [1..n]. *)
Definition action_typed (n : Z) (a : GameAction) : bool :=
  match a.(Action.playerNumber) with Some k => (1 <=? k) && (k <=? n) | None => true end &&
  match a.(Action.type) with
  | recordStrike | nextFrame | nextRoll => bool_decide (is_Some a.(Action.playerNumber))
  | addToScore => bool_decide (is_Some a.(Action.pinsDown))
  | addToStrike => bool_decide (is_Some a.(Action.pinsDown) ∧ is_Some a.(Action.strikeIndex))
  | _ => true
  end.

Lemma rollAction_typed n k rn pins :
  1 ≤ k ≤ n → action_typed n (rollAction (Some k) rn pins (-1) (-1)) = true.
Proof.
  intros Hk. unfold action_typed, rollAction.
  repeat case_if; simpl; rewrite ?andb_true_iff, ?Z.leb_le; try split_and!; try lia;
    try done; try (apply bool_decide_eq_true; eauto).
Qed.

Lemma turn_action_typed n k rn :
  1 ≤ k ≤ n → action_typed n (mkAction (turn_type n k rn) None (Some k) None None) = true.
Proof.
  intros Hk. unfold action_typed, turn_type.
  repeat case_if; simpl; rewrite ?andb_true_iff, ?Z.leb_le; try split_and!; try lia;
    try done; try (apply bool_decide_eq_true; eauto).
Qed.

(** C22: in every reachable state, the actions a click on Roll dispatches
    are well typed: the non-null assertions of the reducer cases they
    reach hold and the [as number] casts of the current player's number
    give a number of [1..n]. *)
Theorem dispatched_actions_typed g r acts :
  reachable g → handleRoll g r = Ok acts →
  Forall (λ a, action_typed (Z.of_nat (length g.(players))) a = true) acts.
Proof.
  intros Hreach Hh.
  destruct (handleRoll_cases g r acts (wf_of_reachable g Hreach) Hh)
    as [-> | (k & rn & pins & Hk & ->)]; [constructor|].
  constructor; [by apply rollAction_typed|].
  constructor; [by apply turn_action_typed | constructor].
Qed.

Lemma dispatched_actions_typed_witness :
  ∃ g, run gameInitialState [ClickAddPlayer; ClickAddPlayer; ClickRoll (1 # 2)] = Ok g ∧
  ∃ acts, reachable g ∧ handleRoll g (10 # 11) = Ok acts ∧
    Forall (λ a, action_typed (Z.of_nat (length g.(players))) a = true) acts.
Proof.
  eexists. split; [reflexivity|]. eexists.
  assert (reachable (match run gameInitialState [ClickAddPlayer; ClickAddPlayer; ClickRoll (1 # 2)] with
                     | Ok g => g | _ => gameInitialState end)) as Hr.
  by reach_run [ClickAddPlayer; ClickAddPlayer; ClickRoll (1 # 2)].
  simpl in Hr. split_and!; [exact Hr | reflexivity |].
  eapply (dispatched_actions_typed _ (10 # 11)); [exact Hr | reflexivity].
Defined.

End Typing.
