(* ===== verification/Heap.v ===== *)
(** The objects behind the state, and what [useImmerReducer] does with
    them.

    The value model of the other files treats the state as a tree of
    values.  In the program it is a graph of JavaScript objects with
    sharing: [Array(10).fill({ ...frameInitialState })] (line 27) puts one
    frame object in all ten slots of [framesInitialState];
    [playerInitialState.frames] is a shallow copy of that array (line 38),
    and every player created by [{ ...playerInitialState, playerNumber }]
    (lines 83-86, 178-181) shares it; [state.currentPlayer =
    state.players[0]] (line 183) makes two paths lead to one player object.
    This file models that object graph as a store of frame objects and
    player objects at locations, the game as the root holding locations,
    and how a reducer write acts on it under immer's copy-on-write
    ([himmer_update_frame]: the written frame, the player and the arrays on
    the path are copied and no existing object changes). *)

From Stdlib Require Import ZArith Lia.
From stdpp Require Import base list gmap strings.
From S2P Require Import Prelude Runtime Model Reducer.

Open Scope Z_scope.

(** A player object: its fields, with the frames array as the locations
    of its frame objects. *)
Record hplayer := mkHPlayer { hp_number : option Z; hp_score : Z; hp_frames : list N }.

(** The store: frame objects and player objects by location, and the next
    fresh location. *)
Record heap := mkHeap {
  h_frames : gmap N Frame;
  h_players : gmap N hplayer;
  h_next : N
}.

(** The root [Game] object: the [players] array as locations, the
    location of [currentPlayer], and the two scalar fields. *)
Record hgame := mkHGame {
  hg_players : list N;
  hg_current : N;
  hg_cfn : Z;
  hg_winner : string
}.

Definition hstate : Type := heap * hgame.

(** ** Reading the objects as values *)

Definition read_player (h : heap) (l : N) : option Player :=
  hp ← h.(h_players) !! l;
  fs ← mapM (λ fl, h.(h_frames) !! fl) hp.(hp_frames);
  Some (mkPlayer hp.(hp_number) hp.(hp_score) fs).

Definition read_game (s : hstate) : option Game :=
  ps ← mapM (read_player s.1) s.2.(hg_players);
  cp ← read_player s.1 s.2.(hg_current);
  Some (mkGame ps cp s.2.(hg_cfn) s.2.(hg_winner)).

(** Every object lives below the next fresh location, and the shared
    frame object of [framesInitialState] still holds [frameInitialState]. *)
Definition hwf (h : heap) : Prop :=
  map_Forall (λ l _, (l < h.(h_next))%N) h.(h_frames) ∧
  map_Forall (λ l _, (l < h.(h_next))%N) h.(h_players) ∧
  h.(h_frames) !! 1%N = Some frameInitialState.

(** A store state and the value it reads as. *)
Definition hrel (s : hstate) (g : Game) : Prop := read_game s = Some g ∧ hwf s.1.

(** ** Creating objects *)

Definition alloc_frame (h : heap) (f : Frame) : heap :=
  mkHeap (<[h.(h_next) := f]> h.(h_frames)) h.(h_players) (N.succ h.(h_next)).

Definition alloc_player (h : heap) (p : hplayer) : heap :=
  mkHeap h.(h_frames) (<[h.(h_next) := p]> h.(h_players)) (N.succ h.(h_next)).

(** The objects created when the module loads: the [currentPlayer]
    literal of [gameInitialState] (lines 50-54) at location 0, and the one
    frame object [{ ...frameInitialState }] that [Array(10).fill] puts in
    every slot of [framesInitialState] (line 27) at location 1. *)
Definition heapInitial : heap :=
  mkHeap {[1%N := frameInitialState]} {[0%N := mkHPlayer None 0 []]} 2.

(** [framesInitialState], and its copy [playerInitialState.frames]: ten
    references to the same frame object. *)
Definition framesInitialLocs : list N := replicate 10 1%N.

Definition hInitial : hstate := (heapInitial, mkHGame [] 0 1 "").

(** ** The writes of the reducer cases *)

(** [let currentFrame = state.players[pi].frames[fi]] followed by writes
    to [currentFrame], on an immer draft: the first write copies the frame
    object, then the player object whose [frames] array is copied with the
    new frame in slot [fi], then the [players] array and the root. *)
Definition himmer_update_frame (s : hstate) (pi fi : Z) (f : Frame → outcome Frame)
    : outcome hstate :=
  let (h, hg) := s in
  pl ← js_at hg.(hg_players) pi;
  hp ← deref (h.(h_players) !! pl);
  fl ← js_at hp.(hp_frames) fi;
  fr ← deref (h.(h_frames) !! fl);
  fr' ← f fr;
  let h1 := alloc_frame h fr' in
  let h2 := alloc_player h1 (mkHPlayer hp.(hp_number) hp.(hp_score)
                               (js_set hp.(hp_frames) fi h.(h_next))) in
  Ok (h2, mkHGame (js_set hg.(hg_players) pi h1.(h_next)) hg.(hg_current)
            hg.(hg_cfn) hg.(hg_winner)).

(** [state.players.push({ ...playerInitialState, playerNumber: n + 1 })]:
    a new player object whose [frames] is the shared array of
    [playerInitialState]. *)
Definition hpush_player (s : hstate) : hstate :=
  let (h, hg) := s in
  (alloc_player h (mkHPlayer (Some (Z.of_nat (length hg.(hg_players)) + 1)) 0 framesInitialLocs),
   mkHGame (hg.(hg_players) ++ [h.(h_next)]) hg.(hg_current) hg.(hg_cfn) hg.(hg_winner)).

(** [state.currentPlayer = state.players[j]]: the root now refers to the
    same player object as [players[j]]. *)
Definition hset_current (s : hstate) (j : Z) : outcome hstate :=
  let (h, hg) := s in
  pl ← stored (hg.(hg_players) .!! j);
  Ok (h, mkHGame hg.(hg_players) pl hg.(hg_cfn) hg.(hg_winner)).

(** Reading [state.players[pi]] for its fields. *)
Definition hread_player (s : hstate) (pi : Z) : outcome Player :=
  pl ← js_at s.2.(hg_players) pi;
  deref (read_player s.1 pl).

(** ** Growing the store *)

(** [h'] holds every object of [h], unchanged. *)
Definition hincl (h h' : heap) : Prop :=
  h.(h_frames) ⊆ h'.(h_frames) ∧ h.(h_players) ⊆ h'.(h_players).

Lemma hincl_trans h1 h2 h3 : hincl h1 h2 → hincl h2 h3 → hincl h1 h3.
Proof. intros [??] [??]. split; by etrans. Qed.

Lemma mapM_weaken {A B} (f f' : A → option B) l k :
  (∀ x y, f x = Some y → f' x = Some y) → mapM f l = Some k → mapM f' l = Some k.
Proof. intros H. rewrite !mapM_Some. intros Hl. eapply Forall2_impl; [exact Hl|]. auto. Qed.

Lemma read_player_incl h h' l p : hincl h h' → read_player h l = Some p → read_player h' l = Some p.
Proof.
  intros [Hf Hp]. unfold read_player.
  destruct (h_players h !! l) as [hp|] eqn:E; [|done]. simpl.
  rewrite (lookup_weaken _ _ _ _ E Hp). simpl.
  destruct (mapM _ (hp_frames hp)) as [fs|] eqn:E2; [|done]. simpl.
  assert (mapM (λ fl, h_frames h' !! fl) (hp_frames hp) = Some fs) as ->; [|done].
  eapply mapM_weaken; [|exact E2]. intros x y Hx. eapply lookup_weaken; [exact Hx | exact Hf].
Qed.

Lemma hwf_fresh {V} (m : gmap N V) (n : N) :
  map_Forall (λ l _, (l < n)%N) m → m !! n = None.
Proof. intros H. destruct (m !! n) eqn:E; [|done]. apply H in E. lia. Qed.

Lemma map_Forall_lt_succ {V} (m : gmap N V) (n : N) (v : V) :
  map_Forall (λ l _, (l < n)%N) m → map_Forall (λ l _, (l < N.succ n)%N) (<[n := v]> m).
Proof.
  intros H. apply map_Forall_insert_2; [lia|].
  intros l x Hl. specialize (H l x Hl). simpl in H. lia.
Qed.

Lemma map_Forall_lt_mono {V} (m : gmap N V) (n : N) :
  map_Forall (λ l _, (l < n)%N) m → map_Forall (λ l _, (l < N.succ n)%N) m.
Proof. intros H l x Hl. specialize (H l x Hl). simpl in H. lia. Qed.

Lemma alloc_frame_spec h f :
  hwf h → hincl h (alloc_frame h f) ∧ hwf (alloc_frame h f) ∧
    (alloc_frame h f).(h_frames) !! h.(h_next) = Some f.
Proof.
  intros (Hf & Hp & H1).
  assert (hincl h (alloc_frame h f)) as Hi
    by (split; simpl; [by apply insert_subseteq, hwf_fresh | done]).
  split_and!; [done | | apply lookup_insert_eq].
  split_and!; simpl; [by apply map_Forall_lt_succ | by apply map_Forall_lt_mono |].
  eapply lookup_weaken; [exact H1 | apply Hi].
Qed.

Lemma alloc_player_spec h p :
  hwf h → hincl h (alloc_player h p) ∧ hwf (alloc_player h p) ∧
    (alloc_player h p).(h_players) !! h.(h_next) = Some p.
Proof.
  intros (Hf & Hp & H1). split_and!.
  - split; simpl; [done | by apply insert_subseteq, hwf_fresh].
  - split_and!; simpl; [by apply map_Forall_lt_mono | by apply map_Forall_lt_succ | done].
  - apply lookup_insert_eq.
Qed.

(** A store reads as a game exactly when its root does, object by object. *)
Lemma read_game_Some h hg g :
  read_game (h, hg) = Some g ↔
  ∃ ps cp, Forall2 (λ l p, read_player h l = Some p) hg.(hg_players) ps ∧
    read_player h hg.(hg_current) = Some cp ∧
    g = mkGame ps cp hg.(hg_cfn) hg.(hg_winner).
Proof.
  unfold read_game; simpl. split.
  - destruct (mapM _ _) as [ps|] eqn:E; [|done]. simpl.
    destruct (read_player h _) as [cp|] eqn:E2; [|done]. intros [= <-].
    exists ps, cp. by rewrite <- mapM_Some.
  - intros (ps & cp & Hps & Hcp & ->). apply mapM_Some in Hps. by rewrite Hps, Hcp.
Qed.

Lemma read_game_incl h h' hg g : hincl h h' → read_game (h, hg) = Some g → read_game (h', hg) = Some g.
Proof.
  intros Hi (ps & cp & Hps & Hcp & ->)%read_game_Some. apply read_game_Some.
  exists ps, cp. split_and!; [|by eapply read_player_incl | done].
  eapply Forall2_impl; [exact Hps|]. intros. by eapply read_player_incl.
Qed.

(** ** Immer's copy-on-write implements the value model *)

(** The copied player reads as the player with the new frame in slot [fi]. *)
Lemma read_copied_player h hp fs fi fr' :
  hwf h → Forall2 (λ fl fr, h.(h_frames) !! fl = Some fr) hp.(hp_frames) fs →
  read_player (alloc_player (alloc_frame h fr')
                 (mkHPlayer hp.(hp_number) hp.(hp_score) (js_set hp.(hp_frames) fi h.(h_next))))
              (alloc_frame h fr').(h_next) =
    Some (set_frames (js_set fs fi fr') (mkPlayer hp.(hp_number) hp.(hp_score) fs)).
Proof.
  intros Hwf Hfs.
  destruct (alloc_frame_spec h fr' Hwf) as ([Hinc1 _] & Hwf1 & Hnew).
  unfold read_player. simpl. rewrite lookup_insert_eq. simpl.
  assert (mapM (λ fl, (<[h_next h := fr']> (h_frames h)) !! fl) (js_set (hp_frames hp) fi (h_next h)) =
          Some (js_set fs fi fr')) as ->; [|done].
  apply mapM_Some, js_set_Forall2; [|exact Hnew].
  eapply Forall2_impl; [exact Hfs|]. intros x y Hx. eapply lookup_weaken; [exact Hx | exact Hinc1].
Qed.

(** One write through an immer draft reads exactly as the value model's
    [update_frame], also when it throws or leaves the model. *)
Lemma himmer_update_frame_sim s g pi fi f :
  hrel s g → out_rel hrel (himmer_update_frame s pi fi f) (update_frame g pi fi f).
Proof.
  destruct s as [h hg]. intros [(ps & cp & Hps & Hcp & ->)%read_game_Some Hwf]. simpl in Hwf.
  unfold himmer_update_frame, update_frame, js_at; simpl.
  pose proof (js_get_Forall2 _ _ _ pi Hps) as Hpi.
  destruct (hg_players hg .!! pi) as [pl|] eqn:Epl, (ps .!! pi) as [p|] eqn:Ep; try done; simpl.
  unfold read_player in Hpi. destruct (h_players h !! pl) as [hp|] eqn:Ehp; [|done]. simpl in Hpi.
  destruct (mapM _ (hp_frames hp)) as [fs|] eqn:Efs; [|done]. injection Hpi as <-. simpl.
  apply mapM_Some in Efs. pose proof (js_get_Forall2 _ _ _ fi Efs) as Hfi.
  destruct (hp_frames hp .!! fi) as [fl|] eqn:Efl, (fs .!! fi) as [fr|] eqn:Efr; try done; simpl.
  rewrite Hfi. simpl. destruct (f fr) as [fr'| |]; simpl; try done.
  destruct (alloc_frame_spec h fr' Hwf) as (Hinc1 & Hwf1 & _).
  destruct (alloc_player_spec (alloc_frame h fr')
              (mkHPlayer (hp_number hp) (hp_score hp) (js_set (hp_frames hp) fi (h_next h))) Hwf1)
    as (Hinc2 & Hwf2 & _).
  split; [|exact Hwf2]. apply read_game_Some. eexists _, cp. split_and!; [| |done].
  - apply js_set_Forall2.
    + eapply Forall2_impl; [exact Hps|]. intros l q Hl.
      eapply read_player_incl; [eapply hincl_trans; [exact Hinc1 | exact Hinc2] | exact Hl].
    + by apply read_copied_player.
  - eapply read_player_incl; [eapply hincl_trans; [exact Hinc1 | exact Hinc2] | exact Hcp].
Qed.

(** The new player object reads as [newPlayer (n + 1)]: its ten frame
    slots all lead to the shared initial frame object. *)
Lemma hpush_player_sim s g : hrel s g → hrel (hpush_player s) (set_players (push_player g) g).
Proof.
  destruct s as [h hg]. intros [(ps & cp & Hps & Hcp & ->)%read_game_Some Hwf]. simpl in Hwf.
  set (hp := mkHPlayer (Some (Z.of_nat (length (hg_players hg)) + 1)) 0 framesInitialLocs).
  destruct (alloc_player_spec h hp Hwf) as (Hinc & Hwf' & Hnew).
  split; [|exact Hwf']. apply read_game_Some. eexists _, cp. split_and!.
  - apply Forall2_app.
    + eapply Forall2_impl; [exact Hps|]. intros l q Hl. by eapply read_player_incl.
    + constructor; [|constructor]. unfold read_player. simpl. rewrite lookup_insert_eq. simpl.
      destruct Hwf' as (_ & _ & H1). simpl in H1. unfold framesInitialLocs. simpl. rewrite !H1. simpl.
      unfold newPlayer. by rewrite (Forall2_length _ _ _ Hps).
  - by eapply read_player_incl.
  - reflexivity.
Qed.

(** [state.currentPlayer = state.players[j]] on the objects reads as the
    value model's assignment of the value [players[j]]. *)
Lemma hset_current_sim s g j :
  hrel s g →
  out_rel hrel (hset_current s j) (p ← stored (g.(players) .!! j); Ok (set_currentPlayer p g)).
Proof.
  destruct s as [h hg]. intros [(ps & cp & Hps & Hcp & ->)%read_game_Some Hwf].
  unfold hset_current. simpl. pose proof (js_get_Forall2 _ _ _ j Hps) as Hj.
  destruct (hg_players hg .!! j) as [pl|], (ps .!! j) as [p|]; try done; simpl.
  split; [|done]. apply read_game_Some. by exists ps, p.
Qed.

(** Reading [players[pi]] through the objects. *)
Lemma hread_player_sim s g pi : hrel s g → hread_player s pi = js_at g.(players) pi.
Proof.
  destruct s as [h hg]. intros [(ps & cp & Hps & Hcp & ->)%read_game_Some Hwf].
  unfold hread_player, js_at. simpl. pose proof (js_get_Forall2 _ _ _ pi Hps) as Hpi.
  destruct (hg_players hg .!! pi), (ps .!! pi); try done. simpl. by rewrite Hpi.
Qed.

(** Writing a scalar field of the root object. *)
Lemma hrel_set_cfn h hg g cfn :
  hrel (h, hg) g →
  hrel (h, mkHGame hg.(hg_players) hg.(hg_current) cfn hg.(hg_winner)) (set_currentFrameNumber cfn g).
Proof.
  intros [(ps & cp & Hps & Hcp & ->)%read_game_Some Hwf].
  split; [|done]. apply read_game_Some. by exists ps, cp.
Qed.

Lemma hrel_set_winner h hg g w :
  hrel (h, hg) g →
  hrel (h, mkHGame hg.(hg_players) hg.(hg_current) hg.(hg_cfn) w) (set_winner w g).
Proof.
  intros [(ps & cp & Hps & Hcp & ->)%read_game_Some Hwf].
  split; [|done]. apply read_game_Some. by exists ps, cp.
Qed.
