(* ===== verification/Immer.v ===== *)
(** [gameReducer] on the objects, as [useImmerReducer] runs it (line 211):
    every case of the switch with its reads and its draft writes on the
    store of [Heap], the application on the store, and the theorems that
    the value model of [Reducer] and [App] is exactly what the objects read
    as. *)

From Stdlib Require Import ZArith QArith Lia.
From stdpp Require Import base list gmap strings.
From S2P Require Import Prelude Runtime Model Reducer Handlers App Heap.

Open Scope Z_scope.

(** ** The cases of the switch on the objects *)

(** case "addPlayer" (lines 81-88) *)
Definition hreduce_addPlayer (s : hstate) : outcome hstate := Ok (hpush_player s).

(** case "recordStrike" (lines 89-100) *)
Definition hreduce_recordStrike (s : hstate) (action : GameAction) : outcome hstate :=
  match action.(Action.playerNumber) with
  | None => TypeError
  | Some n => himmer_update_frame s (n - 1) s.2.(hg_cfn) recordStrike_frame
  end.

(** case "recordSpare" (lines 101-114) *)
Definition hreduce_recordSpare (s : hstate) (action : GameAction) : outcome hstate :=
  match truthy action.(Action.playerNumber) with
  | None => Ok s
  | Some n => himmer_update_frame s (n - 1) s.2.(hg_cfn) recordSpare_frame
  end.

(** case "addToScore" (lines 115-133) *)
Definition hreduce_addToScore (s : hstate) (action : GameAction) : outcome hstate :=
  match truthy action.(Action.playerNumber) with
  | None => Ok s
  | Some n => himmer_update_frame s (n - 1) (s.2.(hg_cfn) - 1) (addToScore_frame action)
  end.

(** case "callWinner" (lines 134-138) *)
Definition hreduce_callWinner (s : hstate) (action : GameAction) : outcome hstate :=
  Ok (s.1, mkHGame s.2.(hg_players) s.2.(hg_current) s.2.(hg_cfn)
             ("Player " ++ template action.(Action.playerNumber))%string).

(** case "nextFrame" (lines 139-154) *)
Definition hreduce_nextFrame (s : hstate) (action : GameAction) : outcome hstate :=
  match action.(Action.playerNumber) with
  | None => TypeError
  | Some n =>
      cp ← hread_player s (n - 1);
      prev ← previousFrameTotal cp s.2.(hg_cfn);
      s' ← himmer_update_frame s (n - 1) (s.2.(hg_cfn) - 1) (nextFrame_frame prev);
      Ok (s'.1, mkHGame s'.2.(hg_players) s'.2.(hg_current) (s.2.(hg_cfn) + 1) s'.2.(hg_winner))
  end.

(** case "nextPlayer" (lines 155-165) *)
Definition hreduce_nextPlayer (s : hstate) (action : GameAction) : outcome hstate :=
  match truthy action.(Action.playerNumber) with
  | None => Ok s
  | Some n =>
      let isLastInLine := n =? Z.of_nat (length s.2.(hg_players)) - 1 in
      hset_current s (if isLastInLine then 0 else n)
  end.

(** case "nextRoll" (lines 166-174) *)
Definition hreduce_nextRoll (s : hstate) (action : GameAction) : outcome hstate :=
  match action.(Action.playerNumber) with
  | None => TypeError
  | Some n => himmer_update_frame s (n - 1) (s.2.(hg_cfn) - 1) nextRoll_frame
  end.

(** case "addFirstPlayer" (lines 175-185) *)
Definition hreduce_addFirstPlayer (s : hstate) : outcome hstate :=
  hset_current (hpush_player s) 0.

(** case "addToStrike" (lines 186-198): [state.currentPlayer.playerNumber]
    read from the current player object. *)
Definition hreduce_addToStrike (s : hstate) (action : GameAction) : outcome hstate :=
  hp ← deref (s.1.(h_players) !! s.2.(hg_current));
  match hp.(hp_number), action.(Action.strikeIndex) with
  | Some k, Some si => himmer_update_frame s k si (addToStrike_frame action)
  | _, _ => TypeError
  end.

(** The switch (lines 79-208). *)
Definition heapReducer (s : hstate) (action : GameAction) : outcome hstate :=
  match action.(Action.type) with
  | addPlayer => hreduce_addPlayer s
  | recordStrike => hreduce_recordStrike s action
  | recordSpare => hreduce_recordSpare s action
  | addToScore => hreduce_addToScore s action
  | callWinner => hreduce_callWinner s action
  | nextFrame => hreduce_nextFrame s action
  | nextPlayer => hreduce_nextPlayer s action
  | nextRoll => hreduce_nextRoll s action
  | addFirstPlayer => hreduce_addFirstPlayer s
  | addToStrike => hreduce_addToStrike s action
  | addToSpare => Ok s
  end.

#[export] Instance heap_reducer : Reducer hstate GameAction := heapReducer.

(** A click on the objects: the handler reads the objects the last render
    saw and its actions go through the reducer. *)
Definition heap_step (s : hstate) (e : Event) : outcome hstate :=
  match read_game s with
  | Some g =>
      acts ← (match e with
              | ClickAddPlayer => handleAddPlayer g
              | ClickRoll r => handleRoll g r
              end);
      dispatch_all s acts
  | None => Undef
  end.

Fixpoint heap_run (s : hstate) (es : list Event) : outcome hstate :=
  match es with
  | [] => Ok s
  | e :: es => s' ← heap_step s e; heap_run s' es
  end.


(** ** Reading the root *)

Lemma hrel_fields s g :
  hrel s g →
  s.2.(hg_cfn) = g.(currentFrameNumber) ∧
  length s.2.(hg_players) = length g.(players) ∧
  ∃ hp, s.1.(h_players) !! s.2.(hg_current) = Some hp ∧
    hp.(hp_number) = g.(currentPlayer).(playerNumber).
Proof.
  destruct s as [h hg]. intros [(ps & cp & Hps & Hcp & ->)%read_game_Some _]. simpl.
  split_and!; [done | by eapply Forall2_length |].
  unfold read_player in Hcp. destruct (h_players h !! hg_current hg) as [hp|]; [|done].
  simpl in Hcp. destruct (mapM _ _); [|done]. injection Hcp as <-. by exists hp.
Qed.

Lemma hrel_init : hrel hInitial gameInitialState.
Proof.
  split; [reflexivity|]. split_and!; [| | reflexivity].
  - apply map_Forall_singleton. simpl. lia.
  - apply map_Forall_singleton. simpl. lia.
Qed.

(** ** The value model is what the objects read as *)

(** Every case of [gameReducer], run by immer on the objects, reads as
    the value model's case: for every action and every store that reads as
    a game [g], the heap reducer and [gameReducer g] both succeed with
    related states, or both throw, or both leave the model. *)
Lemma heapReducer_sim s g a :
  hrel s g → out_rel hrel (heapReducer s a) (gameReducer g a).
Proof.
  intros Hr. pose proof (hrel_fields s g Hr) as (Hcfn & Hlen & hp & Hhp & Hnum).
  unfold heapReducer, gameReducer. destruct (Action.type a).
  - exact (hpush_player_sim s g Hr).
  - unfold hreduce_recordStrike, reduce_recordStrike. destruct (Action.playerNumber a); [|exact I].
    rewrite Hcfn. by apply himmer_update_frame_sim.
  - unfold hreduce_recordSpare, reduce_recordSpare. destruct (truthy (Action.playerNumber a)); [|exact Hr].
    rewrite Hcfn. by apply himmer_update_frame_sim.
  - unfold hreduce_addToScore, reduce_addToScore. destruct (truthy (Action.playerNumber a)); [|exact Hr].
    rewrite Hcfn. by apply himmer_update_frame_sim.
  - unfold hreduce_callWinner, reduce_callWinner. destruct s as [h hg].
    exact (hrel_set_winner h hg g _ Hr).
  - unfold hreduce_nextFrame, reduce_nextFrame. destruct (Action.playerNumber a) as [n|]; [|exact I].
    rewrite (hread_player_sim _ _ _ Hr), Hcfn.
    destruct (js_at (players g) (n - 1)) as [cp| |]; try exact I. rewrite !bind_Ok.
    destruct (previousFrameTotal cp (currentFrameNumber g)) as [prev| |]; try exact I.
    rewrite !bind_Ok.
    apply (out_rel_bind hrel hrel); [by apply himmer_update_frame_sim|].
    intros [h' hg'] g' Hr'. exact (hrel_set_cfn h' hg' g' _ Hr').
  - unfold hreduce_nextPlayer, reduce_nextPlayer. destruct (truthy (Action.playerNumber a)) as [n|]; [|exact Hr].
    rewrite Hlen. by apply hset_current_sim.
  - unfold hreduce_nextRoll, reduce_nextRoll. destruct (Action.playerNumber a); [|exact I].
    rewrite Hcfn. by apply himmer_update_frame_sim.
  - unfold hreduce_addFirstPlayer, reduce_addFirstPlayer.
    exact (hset_current_sim _ (set_players (push_player g) g) 0 (hpush_player_sim s g Hr)).
  - unfold hreduce_addToStrike, reduce_addToStrike. rewrite Hhp. unfold deref. rewrite bind_Ok, Hnum.
    destruct (playerNumber (currentPlayer g)), (Action.strikeIndex a); try exact I.
    by apply himmer_update_frame_sim.
  - exact Hr.
Qed.

(** A click on the objects reads as the click of the value model. *)
Lemma heap_step_sim s g e : hrel s g → out_rel hrel (heap_step s e) (app_step g e).
Proof.
  intros Hr. unfold heap_step. rewrite (proj1 Hr).
  destruct e as [|r]; unfold app_step, handle;
    [destruct (handleAddPlayer g) as [acts| |] | destruct (handleRoll g r) as [acts| |]];
    try exact I; rewrite !bind_Ok;
    exact (dispatch_all_sim hrel heapReducer_sim s g acts Hr).
Qed.

Lemma heap_run_sim s g es : hrel s g → out_rel hrel (heap_run s es) (run g es).
Proof.
  revert s g. induction es as [|e es IH]; intros s g Hr; [exact Hr|]. simpl.
  apply (out_rel_bind hrel hrel); [by apply heap_step_sim | exact IH].
Qed.

(** C28: the application on the objects is the value model: for every
    sequence of clicks from the initial objects, the run on the store of
    [Heap] (immer's copy-on-write, the shared frame object of
    [framesInitialState], [currentPlayer] as a reference) and the run of
    [App.run] from [gameInitialState] both succeed with the store reading
    as the value state, or both throw, or both leave the model. *)
Theorem heap_runs_refine es : out_rel hrel (heap_run hInitial es) (run gameInitialState es).
Proof. apply heap_run_sim, hrel_init. Qed.
