(* ===== verification/Render.v ===== *)
(** The JSX that [App] returns ([src/src/App.tsx:324-355]) as a pure
    function of the state: a tree of elements and text nodes.  Event
    handlers of the two buttons are the events of [App.app_step]; here the
    buttons only carry their labels. *)

From Stdlib Require Import ZArith QArith Qround Lia Psatz.
From stdpp Require Import base list strings pretty list_numbers.
From S2P Require Import Prelude Runtime Model Handlers State App.

Open Scope Z_scope.

(** A rendered React node: an element with its tag and children, or a
    text node. *)
#[local] Unset Elimination Schemes.
Inductive node :=
| El (tag : string) (children : list node)
| Txt (s : string).
#[local] Set Elimination Schemes.

(** [const frameNumbers = ["", 1, 2, ..., 10]] (line 6): a string and ten
    numbers. *)
Definition frameNumbers : list (string + Z) := inl "" :: (inr <$> seqZ 1 10).

(** [{frameNumber}]: a string as it is, a number in decimal. *)
Definition js_text (v : string + Z) : string :=
  match v with inl s => s | inr n => pretty n end.

(** [`Player ${playerNumber}`] with [playerNumber : number | null]. *)
Definition player_label (o : option Z) : string :=
  "Player " +:+ match o with Some n => pretty n | None => "null" end.

(** [<td>] of one frame (lines 344-348). *)
Definition render_frame (f : Frame) : node :=
  El "td" [El "p" [Txt ("First Roll " +:+ pretty f.(firstRoll))];
           El "p" [Txt ("Second Roll " +:+ pretty f.(secondRoll))];
           El "p" [Txt ("Total " +:+ pretty f.(total))]].

(** [<tr>] of one player (lines 341-350). *)
Definition render_player (p : Player) : node :=
  El "tr" (El "p" [Txt (player_label p.(playerNumber))] :: (render_frame <$> p.(frames))).

(** [{game.players.length > 0 && (<tr>...</tr>)}] (lines 332-338): [false]
    renders nothing. *)
Definition render_header (g : Game) : list node :=
  if 0 <? Z.of_nat (length g.(players)) then
    [El "tr" ((λ v, El "th" [Txt (js_text v)]) <$> frameNumbers)]
  else [].

(** The returned tree (lines 324-355). *)
Definition render (g : Game) : node :=
  El "div" [El "h1" [Txt "Bowling Time"];
            El "button" [Txt "Add player"];
            El "button" [Txt "Roll"];
            El "table" (render_header g ++ [El "tbody" (render_player <$> g.(players))])].

(** ** Reading the table *)

(** What the table shows of a state: each player's number and, per frame,
    its first roll, second roll and total. *)
Definition displayed (g : Game) : list (option Z * list (Z * Z * Z)) :=
  (λ p, (p.(playerNumber), (λ f, (f.(firstRoll), f.(secondRoll), f.(total))) <$> p.(frames)))
    <$> g.(players).

(** The lower bound [handleRoll] passes to [roll] in a state (lines
    260-271), when it reads a frame. *)
Definition draw_min (g : Game) : option Z :=
  pl ← g.(players) .!! (num_of_null g.(currentPlayer).(playerNumber) - 1);
  cf ← pl.(frames) .!! (g.(currentFrameNumber) - 1);
  Some (rollMin cf).

(** Along the clicks on Roll with the draws [rs] from [g], every lower
    bound of the draw is in [[0, 10]]. *)
Fixpoint mins_in_range (g : Game) (rs : list Q) : bool :=
  match rs with
  | [] => true
  | r :: rs =>
      match draw_min g with Some m => (0 <=? m) && (m <=? 10) | None => true end &&
      match app_step g (ClickRoll r) with Ok g' => mins_in_range g' rs | _ => true end
  end.

Lemma render_header_nil g : render_header g = [] ↔ g.(players) = [].
Proof.
  unfold render_header. destruct (players g) as [|p ps]; simpl; [done|].
  split; [done | discriminate].
Qed.

Lemma render_frame_inj f1 f2 :
  render_frame f1 = render_frame f2 →
  (f1.(firstRoll), f1.(secondRoll), f1.(total)) = (f2.(firstRoll), f2.(secondRoll), f2.(total)).
Proof.
  unfold render_frame. intros [= H1 H2 H3].
  apply (inj (String.app _)), (inj pretty) in H1, H2, H3. by rewrite H1, H2, H3.
Qed.

Lemma player_label_Some_inj a b :
  player_label (Some a) = player_label (Some b) → a = b.
Proof. unfold player_label. by intros ?%(inj (String.app _))%(inj pretty). Qed.

(** Two lists whose images under [f] are equal have equal images under [h]
    when [f x = f y] implies [h x = h y]. *)
Lemma fmap_eq_through {A B C} (f : A → B) (h : A → C) (l1 l2 : list A) :
  (∀ x y, x ∈ l1 → y ∈ l2 → f x = f y → h x = h y) →
  f <$> l1 = f <$> l2 → h <$> l1 = h <$> l2.
Proof.
  revert l2. induction l1 as [|x l1 IH]; intros [|y l2] Hfh; simpl; try done.
  intros [= Hxy Hl]. f_equal; [apply Hfh; [left | left | done] |].
  apply IH; [|done]. intros a b Ha Hb. apply Hfh; by right.
Qed.

Lemma render_player_inj p1 p2 a b :
  p1.(playerNumber) = Some a → p2.(playerNumber) = Some b →
  render_player p1 = render_player p2 →
  (p1.(playerNumber), (λ f, (f.(firstRoll), f.(secondRoll), f.(total))) <$> p1.(frames)) =
  (p2.(playerNumber), (λ f, (f.(firstRoll), f.(secondRoll), f.(total))) <$> p2.(frames)).
Proof.
  intros H1 H2 H. unfold render_player in H. rewrite H1, H2 in *.
  assert (player_label (Some a) = player_label (Some b)) as Hl by congruence.
  assert (render_frame <$> frames p1 = render_frame <$> frames p2) as Hfs by congruence.
  rewrite (player_label_Some_inj _ _ Hl). f_equal.
  revert Hfs. apply fmap_eq_through. intros x y _ _. apply render_frame_inj.
Qed.

(** ** The table of a reachable state *)

(** C18: the table of every reachable state has a header row exactly when
    there is a player, and one body row per player: the [i]-th row is
    labelled ["Player i+1"] and holds ten cells, one per frame. *)
Theorem table_shape g :
  reachable g →
  ∃ hdr rows,
    render g = El "div" [El "h1" [Txt "Bowling Time"]; El "button" [Txt "Add player"];
                         El "button" [Txt "Roll"]; El "table" (hdr ++ [El "tbody" rows])] ∧
    (hdr = [] ↔ g.(players) = []) ∧ length rows = length g.(players) ∧
    ∀ i row, rows !! i = Some row →
      ∃ cells, row = El "tr" (El "p" [Txt ("Player " +:+ pretty (Z.of_nat i + 1))] :: cells) ∧
        length cells = 10%nat.
Proof.
  intros Hreach. destruct (Safety.wf_of_reachable g Hreach) as (Hps & Hnum & _).
  exists (render_header g), (render_player <$> players g). split_and!.
  - reflexivity.
  - apply render_header_nil.
  - apply length_fmap.
  - intros i row (p & -> & Hp)%list_lookup_fmap_Some.
    exists (render_frame <$> frames p). split.
    + unfold render_player, player_label. by rewrite (numbered_lookup _ i p Hnum Hp).
    + rewrite length_fmap. by destruct (Forall_lookup_1 _ _ _ _ Hps Hp) as (_ & -> & _).
Qed.

Lemma table_shape_witness :
  ∃ g, run gameInitialState [ClickAddPlayer; ClickAddPlayer] = Ok g ∧ reachable g ∧
  ∃ hdr rows,
    render g = El "div" [El "h1" [Txt "Bowling Time"]; El "button" [Txt "Add player"];
                         El "button" [Txt "Roll"]; El "table" (hdr ++ [El "tbody" rows])] ∧
    (hdr = [] ↔ g.(players) = []) ∧ length rows = length g.(players) ∧
    ∀ i row, rows !! i = Some row →
      ∃ cells, row = El "tr" (El "p" [Txt ("Player " +:+ pretty (Z.of_nat i + 1))] :: cells) ∧
        length cells = 10%nat.
Proof.
  eexists. split; [reflexivity|].
  assert (reachable (match run gameInitialState [ClickAddPlayer; ClickAddPlayer] with
                     | Ok g => g | _ => gameInitialState end)) as Hr.
  by reach_run [ClickAddPlayer; ClickAddPlayer].
  simpl in Hr. split; [exact Hr | apply table_shape; exact Hr].
Defined.

(** C19: the table shows the numbers of the state faithfully: two reachable
    states with the same rendered tree have the same player numbers and the
    same first roll, second roll and total in every frame. *)
Theorem render_determines_displayed g1 g2 :
  reachable g1 → reachable g2 → render g1 = render g2 → displayed g1 = displayed g2.
Proof.
  intros Hr1 Hr2 Hrender.
  destruct (Safety.wf_of_reachable g1 Hr1) as (_ & Hn1 & _).
  destruct (Safety.wf_of_reachable g2 Hr2) as (_ & Hn2 & _).
  unfold render in Hrender. injection Hrender as Hrows%app_inj_2; [|done].
  destruct Hrows as [_ [= Hrows]]. unfold displayed.
  revert Hrows. apply fmap_eq_through.
  intros p1 p2 (i1 & Hp1)%list_elem_of_lookup_1 (i2 & Hp2)%list_elem_of_lookup_1.
  eapply render_player_inj; [apply (numbered_lookup _ _ _ Hn1 Hp1) | apply (numbered_lookup _ _ _ Hn2 Hp2)].
Qed.

Lemma render_determines_displayed_witness :
  ∃ g1 g2, run gameInitialState [ClickAddPlayer] = Ok g1 ∧
    run gameInitialState [ClickAddPlayer; ClickRoll 0] = Ok g2 ∧
    reachable g1 ∧ reachable g2 ∧ g1 ≠ g2 ∧ render g1 = render g2 ∧ displayed g1 = displayed g2.
Proof.
  do 2 eexists. split; [reflexivity|]. split; [reflexivity|].
  assert (reachable (match run gameInitialState [ClickAddPlayer] with
                     | Ok g => g | _ => gameInitialState end)) as Hr1.
  by reach_run [ClickAddPlayer].
  assert (reachable (match run gameInitialState [ClickAddPlayer; ClickRoll 0] with
                     | Ok g => g | _ => gameInitialState end)) as Hr2.
  by reach_run [ClickAddPlayer; ClickRoll 0].
  vm_compute in Hr1, Hr2.
  split_and!; [exact Hr1 | exact Hr2 | discriminate | reflexivity |].
  apply render_determines_displayed; [exact Hr1 | exact Hr2 | reflexivity].
Defined.

(** ** Whole games, as the table shows them *)

Lemma app_step_roll_congr g r r' :
  (∀ m, draw_min g = Some m → roll m 10 r = roll m 10 r') →
  app_step g (ClickRoll r) = app_step g (ClickRoll r').
Proof.
  intros H. unfold app_step, handle, handleRoll, draw_min in *. case_if; [done|].
  unfold js_at, deref. destruct (players g .!! _) as [pl|]; [|done]. simpl in *.
  destruct (frames pl .!! _) as [cf|]; [|done]. simpl in *.
  by rewrite (H (rollMin cf) eq_refl).
Qed.

Lemma run_rolls_congr g rs rs' :
  Forall2 (λ r r', ∀ m, 0 ≤ m ≤ 10 → roll m 10 r = roll m 10 r') rs rs' →
  mins_in_range g rs' = true → run g (ClickRoll <$> rs) = run g (ClickRoll <$> rs').
Proof.
  intros Hrs. revert g. induction Hrs as [|r r' rs rs' Hr _ IH]; intros g Hm; [done|].
  cbn [mins_in_range] in Hm. rewrite !fmap_cons. cbn [run].
  apply andb_true_iff in Hm as [Hmin Hrest].
  rewrite (app_step_roll_congr g r r').
  - destruct (app_step g (ClickRoll r')) as [g'| |]; simpl; [by apply IH | done | done].
  - intros m Hd. rewrite Hd in Hmin. apply Hr.
    apply andb_true_iff in Hmin as [? ?]. lia.
Qed.

Lemma run_app g es1 es2 : run g (es1 ++ es2) = (g' ← run g es1; run g' es2).
Proof.
  revert g. induction es1 as [|e es1 IH]; intros g; [done|]. cbn [run app].
  destruct (app_step g e); [apply IH | done | done].
Qed.

Lemma rolls_after_frame10 g rs : g.(currentFrameNumber) = 10 → run g (ClickRoll <$> rs) = Ok g.
Proof.
  intros H. induction rs as [|r rs IH]; [done|]. rewrite fmap_cons. cbn [run].
  rewrite App.Safety.roll_after_frame9 by lia. exact IH.
Qed.

Lemma Forall_Forall2_replicate {A B} (P : A → B → Prop) (l : list A) (y : B) :
  Forall (λ x, P x y) l → Forall2 P l (replicate (length l) y).
Proof. induction 1; simpl; by constructor. Qed.

(** A long run of rolls: the first [k] draws decide it when they act as
    the draws [r0], and the game is in frame 10 after them. *)
Lemma long_run g0 k r0 rs g :
  (k ≤ length rs)%nat →
  Forall (λ r, ∀ m, 0 ≤ m ≤ 10 → roll m 10 r = roll m 10 r0) (take k rs) →
  mins_in_range g0 (replicate k r0) = true →
  run g0 (ClickRoll <$> replicate k r0) = Ok g → g.(currentFrameNumber) = 10 →
  run g0 (ClickRoll <$> rs) = Ok g.
Proof.
  intros Hk Hall Hm Hrun H10.
  rewrite <- (take_drop k rs), fmap_app, run_app.
  rewrite (run_rolls_congr g0 (take k rs) (replicate k r0)).
  - rewrite Hrun. simpl. by apply rolls_after_frame10.
  - rewrite <- (length_take_le rs k) at 2 by done. by apply Forall_Forall2_replicate.
  - done.
Qed.

Lemma Qfloor_eq x k : (inject_Z k <= x)%Q → (x < inject_Z (k + 1))%Q → Qfloor x = k.
Proof.
  intros Hl Hu.
  assert (k ≤ Qfloor x) by (rewrite <- (Qfloor_Z k) at 1; by apply Qfloor_resp_le).
  assert (Qfloor x < k + 1); [|lia].
  rewrite Zlt_Qlt. eapply Qle_lt_trans; [apply Qfloor_le | exact Hu].
Qed.

(** A draw below 1/11 knocks down the lower bound of a draw from
    [[m, 10]]: no pin above it. *)
Lemma roll_low m r : 0 ≤ m ≤ 10 → (0 <= r)%Q → (r < 1 # 11)%Q → roll m 10 r = m.
Proof.
  intros Hm Hr0 Hr1. unfold roll.
  assert (0 <= inject_Z (10 - m + 1) <= 11)%Q as [Hw0 Hw1].
  { split; [change 0%Q with (inject_Z 0) | change 11%Q with (inject_Z 11)]; rewrite <- Zle_Qle; lia. }
  assert (0 <= r * inject_Z (10 - m + 1))%Q by (apply Qmult_le_0_compat; done).
  assert (r * inject_Z (10 - m + 1) <= r * 11)%Q
    by (apply Qmult_le_compat_nonneg; split; [done | apply Qle_refl | done | done]).
  apply Qfloor_eq.
  - lra.
  - rewrite (inject_Z_plus m 1). change (inject_Z 1) with 1%Q. lra.
Qed.

(** A draw of at least 10/11 knocks down 10 pins whatever the lower
    bound in [[0, 10]]. *)
Lemma roll_high m r : 0 ≤ m ≤ 10 → (10 # 11 <= r)%Q → (r < 1)%Q → roll m 10 r = 10.
Proof.
  intros Hm Hr0 Hr1. unfold roll.
  assert (0 < inject_Z (10 - m + 1))%Q as Hw
    by (change 0%Q with (inject_Z 0); rewrite <- Zlt_Qlt; lia).
  assert (inject_Z (10 - m + 1) + inject_Z m == 11)%Q as Hsum
    by (rewrite <- inject_Z_plus; by replace (10 - m + 1 + m) with 11 by lia).
  assert (0 <= inject_Z m)%Q by (change 0%Q with (inject_Z 0); rewrite <- Zle_Qle; lia).
  assert ((10 # 11) * inject_Z (10 - m + 1) <= r * inject_Z (10 - m + 1))%Q
    by (apply Qmult_le_compat_nonneg; split; [done | done | apply Qlt_le_weak, Hw | apply Qle_refl]).
  assert (r * inject_Z (10 - m + 1) < 1 * inject_Z (10 - m + 1))%Q
    by (apply Qmult_lt_r; done).
  apply Qfloor_eq; change (inject_Z 10) with 10%Q; change (inject_Z (10 + 1)) with 11%Q; lra.
Qed.

(** The state after the first click on Add player. *)
Lemma add_first_player_step :
  app_step gameInitialState ClickAddPlayer =
    Ok (set_players [newPlayer 1] (set_currentPlayer (newPlayer 1) gameInitialState)).
Proof. reflexivity. Qed.

(** C25: a gutter game agrees with the spec: one player whose balls each
    knock down no pin ([Math.random()] below 1/11 at every click, which
    [roll] turns into the lower bound of its range) reaches frame 10 after
    18 balls, whatever the draws are and however many more clicks follow,
    with every frame of the table showing 0, 0 and a total of 0. *)
Theorem gutter_game rs :
  (18 ≤ length rs)%nat → Forall (λ r, 0 <= r ∧ r < 1 # 11)%Q rs →
  ∃ g, run gameInitialState (ClickAddPlayer :: (ClickRoll <$> rs)) = Ok g ∧
    g.(currentFrameNumber) = 10 ∧ displayed g = [(Some 1, replicate 10 (0, 0, 0))].
Proof.
  intros Hlen Hall.
  set (g := match run gameInitialState (ClickAddPlayer :: (ClickRoll <$> replicate 18 0%Q))
            with Ok g => g | _ => gameInitialState end).
  exists g. split_and!; [| vm_compute; reflexivity | vm_compute; reflexivity].
  cbn [run]. rewrite add_first_player_step, bind_Ok.
  apply (long_run _ 18 0%Q); [done | | vm_compute; reflexivity | vm_compute; reflexivity | vm_compute; reflexivity].
  apply Forall_take. eapply Forall_impl; [exact Hall|]. intros r [Hr0 Hr1] m Hm.
  rewrite (roll_low m r) by done.
  rewrite (roll_low m 0%Q); [done | done | apply Qle_refl | reflexivity].
Qed.

Lemma gutter_game_witness :
  (18 ≤ length (replicate 20 (1 # 22)))%nat ∧ Forall (λ r, 0 <= r ∧ r < 1 # 11)%Q (replicate 20 (1 # 22)) ∧
  ∃ g, run gameInitialState (ClickAddPlayer :: (ClickRoll <$> replicate 20 (1 # 22))) = Ok g ∧
    g.(currentFrameNumber) = 10 ∧ displayed g = [(Some 1, replicate 10 (0, 0, 0))].
Proof.
  assert (Forall (λ r, 0 <= r ∧ r < 1 # 11)%Q (replicate 20 (1 # 22))) as Hf
    by (apply Forall_replicate; split; [vm_compute; discriminate | reflexivity]).
  split_and!; [simpl; lia | exact Hf |].
  apply gutter_game; [simpl; lia | exact Hf].
Defined.

(** C26: a game of strikes does not score 300: one player whose every ball
    knocks down 10 pins ([Math.random()] at least 10/11 at every click)
    reaches frame 10 after 10 balls, whatever the draws are and however
    many more clicks follow: the first ball is a strike written into frame
    2 and every later ball a spare written into the next frame, and the
    table shows totals 0, 10, 10, ..., 10. *)
Theorem strike_game rs :
  (10 ≤ length rs)%nat → Forall (λ r, 10 # 11 <= r ∧ r < 1)%Q rs →
  ∃ g, run gameInitialState (ClickAddPlayer :: (ClickRoll <$> rs)) = Ok g ∧
    g.(currentFrameNumber) = 10 ∧
    displayed g = [(Some 1, (0, 0, 0) :: (10, 0, 10) :: replicate 8 (0, 0, 10))].
Proof.
  intros Hlen Hall.
  set (g := match run gameInitialState (ClickAddPlayer :: (ClickRoll <$> replicate 10 (10 # 11)))
            with Ok g => g | _ => gameInitialState end).
  exists g. split_and!; [| vm_compute; reflexivity | vm_compute; reflexivity].
  cbn [run]. rewrite add_first_player_step, bind_Ok.
  apply (long_run _ 10 (10 # 11)); [done | | vm_compute; reflexivity | vm_compute; reflexivity | vm_compute; reflexivity].
  apply Forall_take. eapply Forall_impl; [exact Hall|]. intros r [Hr0 Hr1] m Hm.
  rewrite (roll_high m r) by done.
  rewrite (roll_high m (10 # 11)); [done | done | apply Qle_refl | reflexivity].
Qed.

Lemma strike_game_witness :
  (10 ≤ length (replicate 12 (21 # 22)))%nat ∧ Forall (λ r, 10 # 11 <= r ∧ r < 1)%Q (replicate 12 (21 # 22)) ∧
  ∃ g, run gameInitialState (ClickAddPlayer :: (ClickRoll <$> replicate 12 (21 # 22))) = Ok g ∧
    g.(currentFrameNumber) = 10 ∧
    displayed g = [(Some 1, (0, 0, 0) :: (10, 0, 10) :: replicate 8 (0, 0, 10))].
Proof.
  assert (Forall (λ r, 10 # 11 <= r ∧ r < 1)%Q (replicate 12 (21 # 22))) as Hf
    by (apply Forall_replicate; split; [vm_compute; discriminate | reflexivity]).
  split_and!; [simpl; lia | exact Hf |].
  apply strike_game; [simpl; lia | exact Hf].
Defined.
