(* ===== verification/Turn.v ===== *)
(** The turn order: the turn a state is at (a player number and a frame
    number), the order the code implements ([code_next], from the
    [nextFrame] and [nextPlayer] dispatches of [handleRoll] and their
    reducer cases), the round-robin order the spec asks for
    ([spec_next]), the exact turn every click on Roll moves to, and where
    the code's order and the spec's agree. *)

From Stdlib Require Import ZArith QArith Lia.
From stdpp Require Import base list.
From S2P Require Import Prelude Runtime Model Reducer Handlers State Invariant Click App.

Open Scope Z_scope.

(** A turn: who bowls, in which frame. *)
Record turn := mkTurn { t_player : Z; t_frame : Z }.

(** The turn a state is at: [currentPlayer.playerNumber] and
    [currentFrameNumber], read by [handleRoll] (lines 258-263). *)
Definition turn_of (g : Game) : option turn :=
  (λ k, mkTurn k g.(currentFrameNumber)) <$> g.(currentPlayer).(playerNumber).

(** [currentFrame] of [handleRoll] (lines 260-263):
    [game.players[playerNumber - 1].frames[currentFrameNumber - 1]]. *)
Definition current_frame (g : Game) : option Frame :=
  k ← g.(currentPlayer).(playerNumber); frame_at g (k - 1) (g.(currentFrameNumber) - 1).

(** The turn after a second ball, as the code computes it with [n]
    players: the last player ([playerNumber === players.length]) gets
    [nextFrame], which moves the frame cursor; any other player gets
    [nextPlayer], which wraps to player 1 when
    [playerNumber === players.length - 1] and otherwise reads
    [players[playerNumber]], the player numbered [playerNumber + 1]. *)
Definition code_next (n : Z) (t : turn) : turn :=
  if t.(t_player) =? n then mkTurn t.(t_player) (t.(t_frame) + 1)
  else mkTurn (if t.(t_player) =? n - 1 then 1 else t.(t_player) + 1) t.(t_frame).

(** The round robin of the spec: every player bowls in turn, and the frame
    moves on after the last one. *)
Definition spec_next (n : Z) (t : turn) : turn :=
  if t.(t_player) <? n then mkTurn (t.(t_player) + 1) t.(t_frame)
  else mkTurn 1 (t.(t_frame) + 1).

(** The turn after one click on Roll at turn [t] in frame cursor [cfn],
    whose [currentFrame] has [rollNumber = rn]: nothing before frame 10
    (line 258 returns), the same turn after a first ball, [code_next]
    after a second ball (lines 298-321). *)
Definition turn_after (n cfn rn : Z) (t : turn) : turn :=
  if (cfn <=? 9) && (rn =? 2) then code_next n t else t.

(** ** One click *)

Lemma current_frame_Some g :
  wf g → g.(players) ≠ [] →
  ∃ k cf, turn_of g = Some (mkTurn k g.(currentFrameNumber)) ∧ current_frame g = Some cf ∧
    1 ≤ k ≤ Z.of_nat (length g.(players)).
Proof.
  intros Hwf Hne. pose proof Hwf as (_ & _ & _ & Hcfn & _).
  destruct (wf_current g Hwf Hne) as (k & p & Hk & Hp & (_ & Hlen & _) & _ & _ & Hkr & _).
  destruct (js_get_in_range (frames p) (currentFrameNumber g - 1)) as [cf Hcf]; [lia|].
  exists k, cf. unfold turn_of, current_frame. rewrite Hk. simpl.
  rewrite (frame_at_lookup _ _ _ p Hp). auto.
Qed.

(** A click on Roll in a well-formed state with players moves the turn to
    [turn_after]. *)
Lemma click_turn g r g' :
  wf g → g.(players) ≠ [] → app_step g (ClickRoll r) = Ok g' →
  ∃ t cf, turn_of g = Some t ∧ current_frame g = Some cf ∧
    turn_of g' = Some (turn_after (Z.of_nat (length g.(players))) g.(currentFrameNumber)
                         cf.(rollNumber) t) ∧
    1 ≤ t.(t_player) ≤ Z.of_nat (length g.(players)).
Proof.
  intros Hwf Hne Hs.
  destruct (current_frame_Some g Hwf Hne) as (k & cf & Ht & Hcf & Hkr).
  exists (mkTurn k g.(currentFrameNumber)), cf. do 2 (split; [done|]). split; [|simpl; lia].
  unfold turn_after.
  destruct (Z.le_gt_cases (currentFrameNumber g) 9) as [H9 | H9].
  - destruct (roll_click g r Hwf Hne H9)
      as (k' & p & cf' & g'' & Hk' & Hp & Hcf' & Hs' & _ & _ & _ & _ & Hcfn' & _ & _ & _ & Hcp').
    unfold turn_of in Ht. destruct (playerNumber (currentPlayer g)) eqn:Ek; [|done].
    injection Ht as ->. injection Hk' as <-.
    unfold current_frame in Hcf. rewrite Ek in Hcf. simpl in Hcf.
    rewrite (frame_at_lookup _ _ _ p Hp), Hcf' in Hcf. injection Hcf as <-.
    cbn [app_step] in Hs. rewrite Hs in Hs'. injection Hs' as <-.
    unfold turn_of, code_next. rewrite Hcp', Hcfn'. simpl.
    destruct (Z.leb_spec (currentFrameNumber g) 9); [|lia].
    destruct (Z.eqb_spec (rollNumber cf') 2); simpl; [|done].
    by destruct (Z.eqb_spec k (Z.of_nat (length (players g)))).
  - rewrite App.Safety.roll_after_frame9 in Hs by lia. injection Hs as <-.
    destruct (Z.leb_spec (currentFrameNumber g) 9); [lia|]. done.
Qed.

(** [code_next] and [spec_next] agree, for a player of [1..n], exactly for
    one player or a player other than the last but one. *)
Lemma code_next_spec_next n k f :
  1 ≤ k ≤ n →
  code_next n (mkTurn k f) = spec_next n (mkTurn k f) ↔ n = 1 ∨ k < n - 1.
Proof.
  intros Hk. unfold code_next, spec_next; simpl.
  destruct (Z.eqb_spec k n), (Z.ltb_spec k n), (Z.eqb_spec k (n - 1));
    split; intros Heq; try (injection Heq; intros; lia); try lia; try (f_equal; lia).
Qed.

(** C20: every click on Roll moves the turn by exactly one step of the
    code's turn machine: in a reachable state with players, the turn
    after the click is [turn_after]: unchanged from frame 10 on or after a
    first ball ([rollNumber] 1 in [currentFrame]), and [code_next] after
    a second ball. *)
Theorem roll_moves_turn g r g' :
  reachable g → g.(players) ≠ [] → app_step g (ClickRoll r) = Ok g' →
  ∃ t cf, turn_of g = Some t ∧ current_frame g = Some cf ∧
    turn_of g' = Some (turn_after (Z.of_nat (length g.(players))) g.(currentFrameNumber)
                         cf.(rollNumber) t).
Proof.
  intros Hreach Hne Hs.
  destruct (click_turn g r g' (App.Safety.wf_of_reachable g Hreach) Hne Hs)
    as (t & cf & Ht & Hcf & Ht' & _).
  eauto.
Qed.

Lemma roll_moves_turn_witness :
  let g := set_players [newPlayer 1; newPlayer 2] (set_currentPlayer (newPlayer 1) gameInitialState) in
  reachable g ∧ g.(players) ≠ [] ∧
  ∃ g', app_step g (ClickRoll (1 # 2)) = Ok g' ∧
  ∃ t cf, turn_of g = Some t ∧ current_frame g = Some cf ∧
    turn_of g' = Some (turn_after (Z.of_nat (length g.(players))) g.(currentFrameNumber)
                         cf.(rollNumber) t).
Proof.
  cbv zeta.
  assert (reachable (set_players [newPlayer 1; newPlayer 2]
            (set_currentPlayer (newPlayer 1) gameInitialState))) as Hr.
  by reach_run [ClickAddPlayer; ClickAddPlayer].
  split_and!; [exact Hr | discriminate |].
  eexists. split; [reflexivity|].
  apply (roll_moves_turn _ (1 # 2)); [exact Hr | discriminate | reflexivity].
Defined.

(** C21: where the code's turn order is the spec's: when the current
    player [k] of a reachable game with [n] players bowls the second ball
    of a frame before frame 10, the turn the click moves to is the spec's
    round-robin successor exactly when [n = 1] or [k < n - 1]: with two
    players or more, the code gives the turn after player [n - 1] back to
    player 1 and, after player [n], moves the frame without returning to
    player 1. *)
Theorem second_ball_turn_vs_spec g r g' t cf :
  reachable g → g.(players) ≠ [] → g.(currentFrameNumber) ≤ 9 →
  turn_of g = Some t → current_frame g = Some cf → cf.(rollNumber) = 2 →
  app_step g (ClickRoll r) = Ok g' →
  (turn_of g' = Some (spec_next (Z.of_nat (length g.(players))) t) ↔
   Z.of_nat (length g.(players)) = 1 ∨ t.(t_player) < Z.of_nat (length g.(players)) - 1).
Proof.
  intros Hreach Hne H9 Ht Hcf Hrn Hs.
  destruct (click_turn g r g' (App.Safety.wf_of_reachable g Hreach) Hne Hs)
    as (t1 & cf1 & Ht1 & Hcf1 & Ht' & Hk).
  rewrite Ht in Ht1. injection Ht1 as <-. rewrite Hcf in Hcf1. injection Hcf1 as <-.
  rewrite Ht'. unfold turn_after. rewrite Hrn, Z.eqb_refl.
  destruct (Z.leb_spec (currentFrameNumber g) 9); [|lia]. cbn [andb].
  destruct t as [k f]. simpl in Hk |- *.
  transitivity (code_next (Z.of_nat (length (players g))) (mkTurn k f) =
                spec_next (Z.of_nat (length (players g))) (mkTurn k f)).
  - split; [by intros [= ->] | by intros ->].
  - by apply code_next_spec_next.
Qed.

Lemma second_ball_turn_vs_spec_witness :
  ∃ g, run gameInitialState [ClickAddPlayer; ClickAddPlayer; ClickRoll (1 # 2)] = Ok g ∧
    reachable g ∧ g.(players) ≠ [] ∧ g.(currentFrameNumber) ≤ 9 ∧
    turn_of g = Some (mkTurn 1 1) ∧
    current_frame g = Some (set_rollNumber 2 (set_total 5 (set_firstRoll 5 frameInitialState))) ∧
    ∃ g', app_step g (ClickRoll (1 # 3)) = Ok g' ∧
    (turn_of g' = Some (spec_next (Z.of_nat (length g.(players))) (mkTurn 1 1)) ↔
     Z.of_nat (length g.(players)) = 1 ∨ 1 < Z.of_nat (length g.(players)) - 1).
Proof.
  eexists. split; [reflexivity|].
  assert (reachable (match run gameInitialState [ClickAddPlayer; ClickAddPlayer; ClickRoll (1 # 2)] with
                     | Ok g => g | _ => gameInitialState end)) as Hr.
  by reach_run [ClickAddPlayer; ClickAddPlayer; ClickRoll (1 # 2)].
  vm_compute in Hr.
  split_and!; [exact Hr | discriminate | vm_compute; discriminate | reflexivity | reflexivity |].
  eexists. split; [reflexivity|].
  apply (second_ball_turn_vs_spec _ (1 # 3) _ (mkTurn 1 1)
           (set_rollNumber 2 (set_total 5 (set_firstRoll 5 frameInitialState))));
    [exact Hr | discriminate | vm_compute; discriminate | reflexivity | reflexivity | reflexivity | reflexivity].
Defined.
